(** * The user model of catwatch: credentials, tokens, last-admin safeguard

    A shallow embedding of [catwatch/blueprints/user/models.py].  The class
    [User] becomes a record, its methods become functions of the same names.
    The collaborators the class calls but does not define are kept apart from
    it: the ORM query layer is a small evaluator over the table contents, the
    token serializer and the bcrypt extension are interfaces whose instances
    are supplied by the caller. *)

From Stdlib Require Import ZArith Ascii String List Bool Lia.
From stdpp Require Import base option list strings gmap.
From stdpp Require Import pretty.

Local Open Scope string_scope.

(** ** Python values and outcomes *)

(** The Python objects that reach this module through dynamically typed
    arguments: [None], the two booleans, strings, and everything else
    (numbers, lists, nested mappings), which the code never inspects. *)
Inductive pyval : Type :=
  | PNone
  | PBool (b : bool)
  | PStr (s : string)
  | POther.

#[global] Instance pyval_eq_dec : EqDecision pyval.
Proof. solve_decision. Defined.

(** [x is None] and [x is True]: identity against the singletons. *)
Definition is_None (x : pyval) : bool :=
  match x with PNone => true | _ => false end.

Definition is_True (x : pyval) : bool :=
  match x with PBool true => true | _ => false end.

(** Truthiness of a [str], as tested by [if s:] and [not s]. *)
Definition truthy (s : string) : bool :=
  match s with EmptyString => false | String _ _ => true end.

(** Exceptions deriving from [Exception] that the collaborators raise. *)
Inductive exn : Type :=
  | BadSignature
  | SignatureExpired
  | BadPayload
  | AttributeError
  | TypeError
  | ValueError
  | StatementError.

Inductive outcome (A : Type) : Type :=
  | Returns (a : A)
  | Raises (e : exn).

Arguments Returns {A} a.
Arguments Raises {A} e.

(** A decoded JSON document: a mapping with string keys, or anything else. *)
Inductive json : Type :=
  | JDict (d : gmap string pyval)
  | JNotDict.

(** [payload.get(key)]: only mappings have the method. *)
Definition json_get (payload : json) (key : string) : outcome pyval :=
  match payload with
  | JDict d => Returns (default PNone (d !! key))
  | JNotDict => Raises AttributeError
  end.

(** ** Strings *)

(** [str.lower] on the ASCII range; a character outside it is left as it
    is. *)
Definition lower_ascii (c : ascii) : ascii :=
  let n := nat_of_ascii c in
  if (65 <=? n)%nat && (n <=? 90)%nat then ascii_of_nat (n + 32) else c.

Fixpoint lower (s : string) : string :=
  match s with
  | EmptyString => EmptyString
  | String c s' => String (lower_ascii c) (lower s')
  end.

(** SQL [LIKE] as the repository's PostgreSQL matches it: [%] matches any
    run of characters, [_] exactly one, and a backslash, the escape
    character in force when the statement names none, makes the character
    after it stand for itself; every other character matches itself.  A
    pattern that ends in a lone backslash is refused by the server; it
    matches nothing here, and [search] builds no such pattern (lemma
    [search_pattern_escape_closed]). *)
Fixpoint like (pattern : string) : string -> bool :=
  match pattern with
  | EmptyString => fun s => negb (truthy s)
  | String c p =>
      if Ascii.eqb c "%" then
        fix skip (s : string) : bool :=
          like p s || match s with
                      | EmptyString => false
                      | String _ s' => skip s'
                      end
      else if Ascii.eqb c "_" then
        fun s => match s with
                 | EmptyString => false
                 | String _ s' => like p s'
                 end
      else if Ascii.eqb c "\" then
        match p with
        | EmptyString => fun _ => false
        | String d p' =>
            fun s => match s with
                     | EmptyString => false
                     | String e s' => Ascii.eqb d e && like p' s'
                     end
        end
      else
        fun s => match s with
                 | EmptyString => false
                 | String d s' => Ascii.eqb c d && like p s'
                 end
  end.

(** The pattern ends in the middle of an escape: its last character is a
    backslash that no earlier backslash escapes. *)
Fixpoint dangling_escape (pattern : string) : bool :=
  match pattern with
  | EmptyString => false
  | String c p =>
      if Ascii.eqb c "\" then
        match p with
        | EmptyString => true
        | String _ p' => dangling_escape p'
        end
      else dangling_escape p
  end.

(** [ILIKE]: [LIKE] after folding both sides to lower case. *)
Definition ilike (pattern s : string) : bool := like (lower pattern) (lower s).

(** ** The users table *)

Record User : Type := mkUser {
  id : Z;
  (* Authentication. *)
  role : string;
  active : bool;
  username : option string;
  email : string;
  password : option string;
  (* Billing. *)
  name : option string;
  stripe_customer_id : option string;
  cancelled_subscription_on : option Z;
  (* Activity tracking. *)
  sign_in_count : Z;
  current_sign_in_on : option Z;
  current_sign_in_ip : option string;
  last_sign_in_on : option Z;
  last_sign_in_ip : option string
}.

(** [ROLE], in declaration order. *)
Definition ROLE : list (string * string) :=
  [("guest", "Guest"); ("member", "Member"); ("admin", "Admin")].

(** ** The query layer *)

(** The string columns the class filters on; [None] is SQL NULL. *)
Inductive column : Type := Col_role | Col_email | Col_username | Col_name.

Definition column_value (c : column) (u : User) : option string :=
  match c with
  | Col_role => Some (role u)
  | Col_email => Some (email u)
  | Col_username => username u
  | Col_name => name u
  end.

(** What the class hands to [filter]: column comparisons, [ilike], their
    disjunction ([|] and [or_]), or a plain Python boolean. *)
Inductive criterion : Type :=
  | Eq (c : column) (v : pyval)
  | ILike (c : column) (pattern : string)
  | Or (a b : criterion)
  | Const (b : bool).

(** Three-valued disjunction of SQL. *)
Definition sql_or (a b : option bool) : option bool :=
  match a, b with
  | Some true, _ | _, Some true => Some true
  | Some false, Some false => Some false
  | _, _ => None
  end.

(** The value of a criterion on one row; [None] is SQL's unknown.
    [column == None] is rendered [IS NULL]. *)
Fixpoint eval (c : criterion) (u : User) : option bool :=
  match c with
  | Eq col PNone => Some (bool_decide (column_value col u = None))
  | Eq col (PStr s) => (fun x => bool_decide (x = s)) <$> column_value col u
  | Eq _ _ => None
  | ILike col pattern => ilike pattern <$> column_value col u
  | Or a b => sql_or (eval a u) (eval b u)
  | Const b => Some b
  end.

(** A row is selected when the criterion is true on it. *)
Definition selects (c : criterion) (u : User) : bool :=
  bool_decide (eval c u = Some true).

(** Only [None] and strings can be bound against a string column; the
    driver rejects the statement otherwise. *)
Fixpoint bindable (c : criterion) : bool :=
  match c with
  | Eq _ (PNone | PStr _) => true
  | Eq _ _ => false
  | ILike _ _ | Const _ => true
  | Or a b => bindable a && bindable b
  end.

Inductive statement : Type :=
  | SelectFirst (c : criterion)
  | SelectCount (c : criterion)
  | Commit.

(** The database session: the rows of [users] in the order queries return
    them, and the statements issued so far. *)
Record session : Type := mkSession {
  table : list User;
  issued : list statement
}.

Definition Session (A : Type) : Type := session -> outcome A * session.

#[global] Instance Session_ret : MRet Session :=
  fun A a s => (Returns a, s).

#[global] Instance Session_bind : MBind Session :=
  fun A B f m s =>
    match m s with
    | (Returns a, s') => f a s'
    | (Raises e, s') => (Raises e, s')
    end.

Definition lift {A : Type} (o : outcome A) : Session A := fun s => (o, s).

(** [try: body except Exception: handler]. *)
Definition try_except {A : Type} (body : Session A) (handler : exn -> Session A)
  : Session A :=
  fun s =>
    match body s with
    | (Returns a, s') => (Returns a, s')
    | (Raises e, s') => handler e s'
    end.

Definition emit (st : statement) (s : session) : session :=
  {| table := table s; issued := issued s ++ [st] |}.

Definition execute {A : Type} (st : statement) (c : criterion)
    (answer : list User -> A) : Session A :=
  fun s =>
    (if bindable c then Returns (answer (List.filter (selects c) (table s)))
     else Raises StatementError,
     emit st s).

(** [User.query.filter(c).first()] *)
Definition query_first (c : criterion) : Session (option User) :=
  execute (SelectFirst c) c head.

(** [User.query.filter(c).count()] *)
Definition query_count (c : criterion) : Session nat :=
  execute (SelectCount c) c length.

(** [db.session.commit()] with [self] modified: the row of the same primary
    key now holds the object's state.  The statement is taken to succeed;
    the server refuses it when a value does not fit its column (see
    [Integer_range] and [String45]). *)
Definition commit (self : User) : Session unit :=
  fun s =>
    (Returns tt,
     {| table := map (fun r => if bool_decide (id r = id self) then self else r)
                     (table s);
        issued := issued s ++ [Commit] |}).

(** The value a computation returns from a given session. *)
Definition result {A : Type} (m : Session A) (s : session) : outcome A := fst (m s).

(** ** Collaborators *)

(** [itsdangerous.TimedJSONWebSignatureSerializer], with the clock it reads
    made an argument: [dumps key expires_in now payload] signs [payload] at
    time [now]; [loads key now token] verifies and decodes at time [now]. *)
Class TimedJSONWebSignatureSerializer : Type := {
  dumps : string -> Z -> Z -> json -> string;
  loads : string -> Z -> string -> outcome json
}.

(** What the class relies on: a token is accepted with the key that signed
    it until [expires_in] seconds have passed, and refused afterwards. *)
Class SerializerLaws (S : TimedJSONWebSignatureSerializer) : Prop := {
  loads_dumps : forall key expires_in issued_at now payload,
    (issued_at <= now <= issued_at + expires_in)%Z ->
    loads key now (dumps key expires_in issued_at payload) = Returns payload;
  loads_expired : forall key expires_in issued_at now payload,
    (issued_at + expires_in < now)%Z ->
    loads key now (dumps key expires_in issued_at payload)
    = Raises SignatureExpired
}.

(** [flask_bcrypt.Bcrypt].  [generate_password_hash password rounds salt]
    takes the random salt it draws as an argument. *)
Class Bcrypt : Type := {
  generate_password_hash : string -> Z -> string -> string;
  check_password_hash : option string -> string -> outcome bool
}.

(** ** The class [User] *)

(** What [filter] may be given by a caller of [search]. *)
Inductive filter_arg : Type :=
  | Text (s : string)
  | Clause (c : criterion).

(** The keyword arguments of the constructor; [None] is a key that is absent
    or explicitly [None]. *)
Record kwargs : Type := mkKwargs {
  kw_role : option string;
  kw_active : option bool;
  kw_username : option string;
  kw_email : option string;
  kw_password : option string;
  kw_name : option string
}.

(** An attribute looked up on the class itself. *)
Inductive class_attribute : Type :=
  | Attr_column (attr : string)
  | Attr_method (attr : string).

(** [User.is_active]: the method of that name; the column is the attribute
    [active]. *)
Definition User_is_active : class_attribute := Attr_method "is_active".

(** [attribute is True], evaluated by Python when the filter is built: no
    attribute of the class is the object [True]. *)
Definition attribute_is_True (a : class_attribute) : bool :=
  match a with
  | Attr_column _ => false
  | Attr_method _ => false
  end.

Section Methods.

Context {serializer : TimedJSONWebSignatureSerializer} {bcrypt : Bcrypt}.

(** [current_app.config['SECRET_KEY']] *)
Variable SECRET_KEY : string.

(** [salt] is the random salt [generate_password_hash] draws. *)
Definition encrypt_password (salt : string) (plaintext_password : string)
  : option string :=
  if truthy plaintext_password
  then Some (generate_password_hash plaintext_password 8 salt)
  else None.

(** The object on leaving the constructor, given the primary key [pk] of
    its row; the columns the constructor leaves unset show their server
    defaults.  [password] is the attribute as the constructor sets it:
    [None] when no hash was made, for which the stored row holds the empty
    string. *)
Definition __init__ (pk : Z) (salt : string) (kw : kwargs) : User :=
  {| id := pk;
     role := default "member" (kw_role kw);
     active := default true (kw_active kw);
     username := lower <$> kw_username kw;
     email := default "" (kw_email kw);
     password := encrypt_password salt (default "" (kw_password kw));
     name := kw_name kw;
     stripe_customer_id := None;
     cancelled_subscription_on := None;
     sign_in_count := 0;
     current_sign_in_on := None;
     current_sign_in_ip := None;
     last_sign_in_on := None;
     last_sign_in_ip := None |}.

Definition search {T : Type} (query : string) (fields : T) : filter_arg :=
  if negb (truthy query) then Text ""
  else
    let search_query := "%" ++ query ++ "%" in
    Clause (Or (ILike Col_email search_query) (ILike Col_name search_query)).

Definition find_by_identity (identity : pyval) : Session (option User) :=
  query_first (Or (Eq Col_email identity) (Eq Col_username identity)).

Definition deserialize_token (now : Z) (token : string)
  : Session (option User) :=
  try_except
    (decoded_payload ← lift (loads SECRET_KEY now token);
     identity ← lift (json_get decoded_payload "user_email");
     find_by_identity identity)
    (fun _ => mret None).

Definition is_last_admin (user : User) (new_role : string)
    (new_active : pyval) : Session bool :=
  let is_changing_roles :=
    bool_decide (role user = "admin")
    && negb (bool_decide (new_role = "admin")) in
  let is_changing_active :=
    is_True (PBool (active user)) && is_None new_active in
  if is_changing_roles || is_changing_active then
    admin_count ← query_count (Eq Col_role (PStr "admin"));
    active_count ← query_count (Const (attribute_is_True User_is_active));
    if (admin_count =? 1)%nat || (active_count =? 1)%nat
    then mret true
    else mret false
  else mret false.

Definition is_active (self : User) : bool := active self.

Definition authenticated (self : User) (with_password : bool)
    (password_ : string) : outcome bool :=
  if with_password then check_password_hash (password self) password_
  else Returns true.

(** [expiration] is [None] when the caller leaves the default. *)
Definition serialize_token (self : User) (expiration : option Z) (now : Z)
  : string :=
  dumps SECRET_KEY (default 3600%Z expiration) now
        (JDict {[ "user_email" := PStr (email self) ]}).

(** [now] is what [datetime.datetime.utcnow()] returns during the call.
    The method changes [self] in place; the changed object is returned
    here in place of the [None] of [commit]. *)
Definition update_activity_tracking (self : User) (now : Z)
    (ip_address : string) : Session User :=
  let self' :=
    {| id := id self;
       role := role self;
       active := active self;
       username := username self;
       email := email self;
       password := password self;
       name := name self;
       stripe_customer_id := stripe_customer_id self;
       cancelled_subscription_on := cancelled_subscription_on self;
       sign_in_count := sign_in_count self + 1;
       current_sign_in_on := Some now;
       current_sign_in_ip := Some ip_address;
       last_sign_in_on := current_sign_in_on self;
       last_sign_in_ip := current_sign_in_ip self |} in
  _ ← commit self';
  mret self'.

End Methods.

(** ** Reference collaborators

    Instances of the two interfaces that can be run.  They have the
    behaviour the class relies on and no cryptographic strength. *)

Module Codec.

(** Self-delimiting encodings, each written in front of [rest]. *)

Fixpoint put_string (s rest : string) : string :=
  match s with
  | EmptyString => String "." rest
  | String c s' => String "+" (String c (put_string s' rest))
  end.

Fixpoint get_string (t : string) : option (string * string) :=
  match t with
  | String "." rest => Some (EmptyString, rest)
  | String "+" (String c t') =>
      '(s, rest) ← get_string t'; Some (String c s, rest)
  | _ => None
  end.

Fixpoint put_positive (p : positive) (rest : string) : string :=
  match p with
  | xH => String "h" rest
  | xO q => String "o" (put_positive q rest)
  | xI q => String "i" (put_positive q rest)
  end.

Fixpoint get_positive (t : string) : option (positive * string) :=
  match t with
  | String "h" rest => Some (xH, rest)
  | String "o" t' => '(q, rest) ← get_positive t'; Some (xO q, rest)
  | String "i" t' => '(q, rest) ← get_positive t'; Some (xI q, rest)
  | _ => None
  end.

Definition put_Z (z : Z) (rest : string) : string :=
  match z with
  | Z0 => String "z" rest
  | Zpos p => String "p" (put_positive p rest)
  | Zneg p => String "n" (put_positive p rest)
  end.

Definition get_Z (t : string) : option (Z * string) :=
  match t with
  | String "z" rest => Some (Z0, rest)
  | String "p" t' => '(p, rest) ← get_positive t'; Some (Zpos p, rest)
  | String "n" t' => '(p, rest) ← get_positive t'; Some (Zneg p, rest)
  | _ => None
  end.

Definition put_pyval (v : pyval) (rest : string) : string :=
  match v with
  | PNone => String "N" rest
  | PBool true => String "T" rest
  | PBool false => String "F" rest
  | PStr s => String "S" (put_string s rest)
  | POther => String "O" rest
  end.

Definition get_pyval (t : string) : option (pyval * string) :=
  match t with
  | String "N" rest => Some (PNone, rest)
  | String "T" rest => Some (PBool true, rest)
  | String "F" rest => Some (PBool false, rest)
  | String "S" t' => '(s, rest) ← get_string t'; Some (PStr s, rest)
  | String "O" rest => Some (POther, rest)
  | _ => None
  end.

Fixpoint put_entries (l : list (string * pyval)) (rest : string) : string :=
  match l with
  | [] => rest
  | (k, v) :: l' => put_string k (put_pyval v (put_entries l' rest))
  end.

Fixpoint get_entries (n : nat) (t : string)
  : option (list (string * pyval) * string) :=
  match n with
  | O => Some ([], t)
  | S n' =>
      '(k, t1) ← get_string t;
      '(v, t2) ← get_pyval t1;
      '(l, rest) ← get_entries n' t2;
      Some ((k, v) :: l, rest)
  end.

Definition put_json (j : json) (rest : string) : string :=
  match j with
  | JDict d =>
      let l := map_to_list d in
      String "D" (put_Z (Z.of_nat (length l)) (put_entries l rest))
  | JNotDict => String "X" rest
  end.

Definition get_json (t : string) : option (json * string) :=
  match t with
  | String "D" t' =>
      '(n, t1) ← get_Z t';
      '(l, rest) ← get_entries (Z.to_nat n) t1;
      Some (JDict (list_to_map l), rest)
  | String "X" rest => Some (JNotDict, rest)
  | _ => None
  end.

End Codec.

(** A serializer whose tokens spell out the key, the time of issue, the
    lifetime and the payload. *)
Module ReferenceSerializer.

Definition sign (key : string) (expires_in issued_at : Z) (payload : json)
  : string :=
  Codec.put_string key
    (Codec.put_Z issued_at
       (Codec.put_Z expires_in (Codec.put_json payload EmptyString))).

Definition parse_token (token : string) : option (string * Z * Z * json * string) :=
  '(key, t1) ← Codec.get_string token;
  '(issued_at, t2) ← Codec.get_Z t1;
  '(expires_in, t3) ← Codec.get_Z t2;
  '(payload, rest) ← Codec.get_json t3;
  Some (key, issued_at, expires_in, payload, rest).

Definition unsign (key : string) (now : Z) (token : string) : outcome json :=
  match parse_token token with
  | None => Raises BadSignature
  | Some (key', issued_at, expires_in, payload, rest) =>
      if negb (bool_decide (key' = key)) then Raises BadSignature
      else if truthy rest then Raises BadPayload
      else if (issued_at + expires_in <? now)%Z then Raises SignatureExpired
      else Returns payload
  end.

#[global] Instance serializer : TimedJSONWebSignatureSerializer :=
  Build_TimedJSONWebSignatureSerializer sign unsign.

End ReferenceSerializer.

(** A bcrypt stand-in: the hash spells out the cost and the salt, followed
    by a digest.  Like bcrypt's [hashpw], checking refuses a missing hash
    with [TypeError] and one it cannot parse with [ValueError]. *)
Module ReferenceBcrypt.

Definition digest (rounds : Z) (salt password_ : string) : string :=
  Codec.put_Z rounds (Codec.put_string salt password_).

Definition hashpw (password_ : string) (rounds : Z)
    (salt : string) : string :=
  "$2b$" ++ Codec.put_Z rounds (Codec.put_string salt (digest rounds salt password_)).

Definition parse_hash (pw_hash : string) : option (Z * string * string) :=
  match pw_hash with
  | String "$" (String "2" (String "b" (String "$" t))) =>
      '(rounds, t1) ← Codec.get_Z t;
      '(salt, d) ← Codec.get_string t1;
      Some (rounds, salt, d)
  | _ => None
  end.

Definition checkpw (pw_hash : option string) (password_ : string)
  : outcome bool :=
  match pw_hash with
  | None => Raises TypeError
  | Some h =>
      match parse_hash h with
      | None => Raises ValueError
      | Some (rounds, salt, d) =>
          Returns (bool_decide (digest rounds salt password_ = d))
      end
  end.

#[global] Instance bcrypt : Bcrypt :=
  Build_Bcrypt hashpw checkpw.

End ReferenceBcrypt.

(** ** The vocabulary of the specification *)

(** The number of identities whose role is admin. *)
Definition count_admins (rows : list User) : nat :=
  length (List.filter (fun u => bool_decide (role u = "admin")) rows).

(** The number of identities whose active flag is true. *)
Definition count_active (rows : list User) : nat :=
  length (List.filter active rows).

(** The safeguard engages: an admin is given another role, or an active
    identity is submitted with no active value. *)
Definition engaged (user : User) (new_role : string) (new_active : pyval)
  : Prop :=
  (role user = "admin" /\ new_role <> "admin")
  \/ (active user = true /\ new_active = PNone).

#[global] Instance engaged_dec user new_role new_active :
  Decision (engaged user new_role new_active).
Proof. unfold engaged. apply _. Defined.

(** [needle] occurs in [hay] as a run of consecutive characters. *)
Fixpoint contains (needle hay : string) : bool :=
  String.prefix needle hay
  || match hay with
     | EmptyString => false
     | String _ hay' => contains needle hay'
     end.

(** The same, ignoring case. *)
Definition icontains (needle hay : string) : bool :=
  contains (lower needle) (lower hay).

(** A query without the wildcards of [LIKE]. *)
Fixpoint wildcard_free (s : string) : bool :=
  match s with
  | EmptyString => true
  | String c s' =>
      negb (Ascii.eqb c "%") && negb (Ascii.eqb c "_") && wildcard_free s'
  end.

(** A query without the escape character of [LIKE]. *)
Fixpoint escape_free (s : string) : bool :=
  match s with
  | EmptyString => true
  | String c s' => negb (Ascii.eqb c "\") && escape_free s'
  end.

(** What the activity columns can hold: [sign_in_count] is an [Integer],
    32 bits wide on the repository's database, and the two address columns
    are [String(45)]. *)
Definition Integer_range (z : Z) : Prop :=
  (-2147483648 <= z <= 2147483647)%Z.

Definition String45 (s : string) : Prop := String.length s <= 45.

(** Invariants 1 and 2 of the data model: no two rows share an email, no
    two rows share a username. *)
Definition unique_emails (rows : list User) : Prop :=
  forall u v, In u rows -> In v rows -> email u = email v -> u = v.

Definition unique_usernames (rows : list User) : Prop :=
  forall u v n, In u rows -> In v rows ->
    username u = Some n -> username v = Some n -> u = v.

(** ** Sample data *)

Module Fixtures.

Import ReferenceSerializer ReferenceBcrypt.

Definition person (pk : Z) (r : string) (a : bool) (uname : option string)
    (mail : string) (display : option string) : User :=
  {| id := pk; role := r; active := a; username := uname; email := mail;
     password := None; name := display;
     stripe_customer_id := None; cancelled_subscription_on := None;
     sign_in_count := 0;
     current_sign_in_on := None; current_sign_in_ip := None;
     last_sign_in_on := None; last_sign_in_ip := None |}.

Definition alice : User :=
  person 1 "admin" true (Some "alice") "alice@example.com" (Some "Alice").

Definition erin : User :=
  person 2 "admin" true (Some "erin") "erin@example.com" None.

(** An admin whose account has been deactivated. *)
Definition frank : User :=
  person 3 "admin" false (Some "frank") "frank@example.com" None.

Definition carol : User :=
  person 4 "member" true None "carol@example.com" (Some "Carol").

Definition dave : User :=
  person 5 "member" true (Some "dave") "dave@example.com" None.

(** A member whose username is spelled like dave's email address. *)
Definition mallory : User :=
  person 6 "member" true (Some "dave@example.com") "mallory@example.com" None.

(** An identity created with an upper-case username. *)
Definition bob : User :=
  __init__ 7 "NaCl"
    {| kw_role := None; kw_active := None; kw_username := Some "BOB";
       kw_email := Some "bob@example.com"; kw_password := Some "hunter2";
       kw_name := Some "Bob" |}.

Definition store (rows : list User) : session :=
  {| table := rows; issued := [] |}.

Definition SECRET_KEY : string := "not-so-secret".

End Fixtures.

(** ** Auth tokens and repeated sign-ins *)

(** [itsdangerous.URLSafeTimedSerializer(key).dumps(data)] for a list of
    strings, with the clock it stamps the token with made an argument. *)
Class URLSafeTimedSerializer : Type := {
  url_dumps : string -> Z -> list string -> string
}.

(** [hashlib.md5(data).hexdigest()] for a string [data]. *)
Class Hashlib : Type := {
  md5_hexdigest : string -> string
}.

(** [md5(data).hexdigest()] for an attribute that may be [None]: [md5]
    accepts strings only. *)
Definition md5 `{Hashlib} (data : option string) : outcome string :=
  match data with
  | None => Raises TypeError
  | Some d => Returns (md5_hexdigest d)
  end.

(** What checking owes to hashing: the password that was hashed verifies. *)
Class BcryptLaws (B : Bcrypt) : Prop := {
  check_generated : forall password_ rounds salt,
    check_password_hash
      (Some (generate_password_hash password_ rounds salt)) password_
    = Returns true
}.

Section AuthToken.

Context {url_serializer : URLSafeTimedSerializer} {hashlib : Hashlib}.

(** [current_app.config['SECRET_KEY']] *)
Variable SECRET_KEY : string.

(** [str(self.id)] is the decimal spelling of the primary key. *)
Definition get_auth_token (self : User) (now : Z) : outcome string :=
  match md5 (password self) with
  | Raises e => Raises e
  | Returns digest =>
      let data := [pretty (id self); digest] in
      Returns (url_dumps SECRET_KEY now data)
  end.

End AuthToken.

(** A run of sign-ins of one account, oldest first, given as the time and
    the address of each: every call of [update_activity_tracking] receives
    the object the previous call left. *)
Fixpoint sign_ins (self : User) (events : list (Z * string)) : Session User :=
  match events with
  | [] => mret self
  | (now, ip_address) :: rest =>
      self' ← update_activity_tracking self now ip_address;
      sign_ins self' rest
  end.

(** A query made of [%] only. *)
Fixpoint all_percent (s : string) : bool :=
  match s with
  | EmptyString => true
  | String c s' => Ascii.eqb c "%" && all_percent s'
  end.

(** Stand-ins for the URL-safe serializer and for [md5], spelling out what
    they are given. *)
Module ReferenceAuth.

Definition url_sign (key : string) (now : Z) (data : list string) : string :=
  Codec.put_string key
    (Codec.put_Z now (fold_right Codec.put_string EmptyString data)).

Definition checksum (data : string) : string :=
  Codec.put_string data EmptyString.

#[global] Instance url_serializer : URLSafeTimedSerializer :=
  Build_URLSafeTimedSerializer url_sign.

#[global] Instance hashlib : Hashlib := Build_Hashlib checksum.

End ReferenceAuth.

(** ** The query layer: facts *)

Lemma selects_true (c : criterion) (u : User) :
  selects c u = true <-> eval c u = Some true.
Proof. unfold selects. apply bool_decide_eq_true. Qed.

Lemma selects_role_admin (u : User) :
  selects (Eq Col_role (PStr "admin")) u = bool_decide (role u = "admin").
Proof.
  unfold selects; simpl.
  destruct (bool_decide (role u = "admin")); reflexivity.
Qed.

Lemma filter_ext_bool {A : Type} (f g : A -> bool) (l : list A) :
  (forall x, f x = g x) -> List.filter f l = List.filter g l.
Proof.
  intros Hfg. induction l as [|x l IH]; simpl; [reflexivity|].
  rewrite Hfg, IH. reflexivity.
Qed.

Lemma count_role_admin (rows : list User) :
  length (List.filter (selects (Eq Col_role (PStr "admin"))) rows)
  = count_admins rows.
Proof.
  unfold count_admins. f_equal. apply filter_ext_bool, selects_role_admin.
Qed.

Lemma filter_const_false (rows : list User) :
  List.filter (selects (Const false)) rows = [].
Proof. induction rows as [|u rows IH]; simpl; [reflexivity | exact IH]. Qed.

(** The first selected row is [u] when [u] is stored and is the only row
    the criterion selects. *)
Lemma head_filter_unique (f : User -> bool) (rows : list User) (u : User) :
  In u rows -> f u = true ->
  (forall v, In v rows -> f v = true -> v = u) ->
  head (List.filter f rows) = Some u.
Proof.
  induction rows as [|r rows IH]; simpl; intros Hin Hu Huniq; [contradiction|].
  destruct (f r) eqn:Hr.
  - simpl. f_equal. apply Huniq; auto.
  - destruct Hin as [-> | Hin]; [congruence|].
    apply IH; auto.
Qed.

Lemma head_filter_In (f : User -> bool) (rows : list User) (u : User) :
  head (List.filter f rows) = Some u -> In u rows /\ f u = true.
Proof.
  induction rows as [|r rows IH]; simpl; [discriminate|].
  destruct (f r) eqn:Hr; simpl.
  - intros [= ->]. auto.
  - intros H. destruct (IH H). auto.
Qed.

(** ** AdminSafeguard *)

Lemma engaged_guard (user : User) (new_role : string) (new_active : pyval) :
  bool_decide (role user = "admin") && negb (bool_decide (new_role = "admin"))
  || is_True (PBool (active user)) && is_None new_active
  = bool_decide (engaged user new_role new_active).
Proof.
  destruct (bool_decide (engaged user new_role new_active)) eqn:E.
  - apply bool_decide_eq_true in E.
    destruct E as [[Hr Hn] | [Ha Hn]].
    + rewrite (bool_decide_eq_true_2 _ Hr), (bool_decide_eq_false_2 _ Hn).
      reflexivity.
    + rewrite Ha, Hn. simpl. apply orb_true_r.
  - apply bool_decide_eq_false in E.
    apply orb_false_iff; split; apply andb_false_iff.
    + destruct (decide (role user = "admin")) as [Hr|Hr].
      * right. apply negb_false_iff, bool_decide_eq_true.
        destruct (decide (new_role = "admin")); [assumption|].
        exfalso. apply E. left; auto.
      * left. apply bool_decide_eq_false; assumption.
    + destruct (active user) eqn:Ha; [right | left; reflexivity].
      destruct new_active; try reflexivity.
      exfalso. apply E. right; auto.
Qed.

(** What one call does: nothing when the safeguard does not engage; else
    two counting statements, and the verdict of the admin count alone,
    since the second statement counts under the criterion [False]. *)
Lemma is_last_admin_run (user : User) (new_role : string) (new_active : pyval)
    (s : session) :
  is_last_admin user new_role new_active s =
  if bool_decide (engaged user new_role new_active) then
    (Returns (count_admins (table s) =? 1)%nat,
     emit (SelectCount (Const false))
          (emit (SelectCount (Eq Col_role (PStr "admin"))) s))
  else (Returns false, s).
Proof.
  unfold is_last_admin. rewrite engaged_guard.
  destruct (bool_decide (engaged user new_role new_active)); [|reflexivity].
  unfold mbind, Session_bind, query_count, execute; simpl.
  rewrite filter_const_false, count_role_admin. simpl.
  rewrite orb_false_r.
  destruct (count_admins (table s) =? 1)%nat; reflexivity.
Qed.

(** C1.  In a table with exactly one admin, who is active, [is_last_admin]
    on that admin with the new role ["member"] returns [True]; in a table
    with exactly two admins the same call on either of them returns
    [False].  Both hold whatever is passed as the new active value, the
    unchanged one included. *)
Theorem is_last_admin_sole_admin_and_pair
    (s : session) (a : User) (new_active : pyval) :
  In a (table s) -> role a = "admin" ->
  (count_admins (table s) = 1 -> active a = true ->
   result (is_last_admin a "member" new_active) s = Returns true)
  /\ (count_admins (table s) = 2 ->
      result (is_last_admin a "member" new_active) s = Returns false).
Proof.
  intros _ Hrole.
  assert (E : engaged a "member" new_active) by (left; split; [assumption | discriminate]).
  unfold result. rewrite is_last_admin_run, (bool_decide_eq_true_2 _ E). simpl.
  split.
  - intros -> _. reflexivity.
  - intros ->. reflexivity.
Qed.

Lemma is_last_admin_sole_admin_and_pair_witness :
  result (is_last_admin Fixtures.alice "member" (PBool true))
         (Fixtures.store [Fixtures.carol; Fixtures.alice]) = Returns true
  /\ result (is_last_admin Fixtures.erin "member" (PBool true))
            (Fixtures.store [Fixtures.alice; Fixtures.erin]) = Returns false.
Proof.
  split.
  - apply (is_last_admin_sole_admin_and_pair
             (Fixtures.store [Fixtures.carol; Fixtures.alice])
             Fixtures.alice (PBool true));
      [simpl; auto | reflexivity | reflexivity | reflexivity].
  - apply (is_last_admin_sole_admin_and_pair
             (Fixtures.store [Fixtures.alice; Fixtures.erin])
             Fixtures.erin (PBool true));
      [simpl; auto | reflexivity | reflexivity].
Defined.

(** C2.  Two admins, one of them deactivated: exactly one identity has a
    true active flag, the safeguard engages on demoting the active admin,
    and [is_last_admin] still returns [False], because its second count is
    taken under the criterion [False] and is 0. *)
Theorem is_last_admin_misses_single_active :
  let rows := [Fixtures.alice; Fixtures.frank] in
  count_admins rows = 2
  /\ count_active rows = 1
  /\ engaged Fixtures.alice "member" (PBool true)
  /\ is_last_admin Fixtures.alice "member" (PBool true) (Fixtures.store rows)
     = (Returns false,
        {| table := rows;
           issued := [SelectCount (Eq Col_role (PStr "admin"));
                      SelectCount (Const false)] |}).
Proof.
  repeat split.
  left. split; [reflexivity | discriminate].
Qed.

(** C3.  [is_last_admin] issues its counting statements exactly when the
    identity is an admin and the new role is not admin, or the identity is
    active and the new active value is [None]; otherwise it returns [False]
    and issues nothing. *)
Theorem is_last_admin_counts_iff_engaged
    (user : User) (new_role : string) (new_active : pyval) (s : session) :
  let run := is_last_admin user new_role new_active s in
  (issued (snd run) <> issued s <-> engaged user new_role new_active)
  /\ (engaged user new_role new_active ->
      issued (snd run)
      = (issued s ++ [SelectCount (Eq Col_role (PStr "admin"));
                      SelectCount (Const (attribute_is_True User_is_active))])%list)
  /\ (~ engaged user new_role new_active -> run = (Returns false, s)).
Proof.
  simpl. rewrite is_last_admin_run.
  destruct (decide (engaged user new_role new_active)) as [E|E].
  - rewrite (bool_decide_eq_true_2 _ E). simpl.
    rewrite <- app_assoc. simpl.
    repeat split; try tauto.
    intros _ H. apply (f_equal length) in H.
    rewrite length_app in H. simpl in H. lia.
  - rewrite (bool_decide_eq_false_2 _ E). simpl.
    repeat split; tauto.
Qed.

Lemma is_last_admin_counts_iff_engaged_witness :
  issued (snd (is_last_admin Fixtures.carol "guest" PNone
                 (Fixtures.store [Fixtures.carol; Fixtures.alice])))
  = [SelectCount (Eq Col_role (PStr "admin")); SelectCount (Const false)]
  /\ is_last_admin Fixtures.carol "guest" (PBool false)
       (Fixtures.store [Fixtures.carol; Fixtures.alice])
     = (Returns false, Fixtures.store [Fixtures.carol; Fixtures.alice]).
Proof.
  split.
  - apply (is_last_admin_counts_iff_engaged Fixtures.carol "guest" PNone
             (Fixtures.store [Fixtures.carol; Fixtures.alice])).
    right. split; reflexivity.
  - apply (is_last_admin_counts_iff_engaged Fixtures.carol "guest" (PBool false)
             (Fixtures.store [Fixtures.carol; Fixtures.alice])).
    intros [[H _] | [_ H]]; discriminate.
Defined.

(** ** The reference serializer obeys the laws *)

Lemma get_put_string (s rest : string) :
  Codec.get_string (Codec.put_string s rest) = Some (s, rest).
Proof.
  induction s as [|c s IH]; simpl; [reflexivity|].
  rewrite IH. reflexivity.
Qed.

Lemma get_put_positive (p : positive) (rest : string) :
  Codec.get_positive (Codec.put_positive p rest) = Some (p, rest).
Proof.
  induction p as [p IH | p IH |]; simpl; try rewrite IH; reflexivity.
Qed.

Lemma get_put_Z (z : Z) (rest : string) :
  Codec.get_Z (Codec.put_Z z rest) = Some (z, rest).
Proof.
  destruct z; simpl; try rewrite get_put_positive; reflexivity.
Qed.

Lemma get_put_pyval (v : pyval) (rest : string) :
  Codec.get_pyval (Codec.put_pyval v rest) = Some (v, rest).
Proof.
  destruct v as [| [] | s |]; simpl; try rewrite get_put_string; reflexivity.
Qed.

Lemma get_put_entries (l : list (string * pyval)) (rest : string) :
  Codec.get_entries (length l) (Codec.put_entries l rest) = Some (l, rest).
Proof.
  induction l as [|[k v] l IH]; simpl; [reflexivity|].
  rewrite get_put_string. simpl.
  rewrite get_put_pyval. simpl.
  rewrite IH. reflexivity.
Qed.

Lemma get_put_json (j : json) (rest : string) :
  Codec.get_json (Codec.put_json j rest) = Some (j, rest).
Proof.
  destruct j as [d|]; simpl; [|reflexivity].
  rewrite get_put_Z. simpl.
  rewrite Nat2Z.id, get_put_entries. simpl.
  rewrite list_to_map_to_list. reflexivity.
Qed.

Lemma parse_sign (key : string) (expires_in issued_at : Z) (payload : json) :
  ReferenceSerializer.parse_token
    (ReferenceSerializer.sign key expires_in issued_at payload)
  = Some (key, issued_at, expires_in, payload, EmptyString).
Proof.
  unfold ReferenceSerializer.parse_token, ReferenceSerializer.sign.
  rewrite get_put_string. simpl.
  rewrite get_put_Z. simpl.
  rewrite get_put_Z. simpl.
  rewrite get_put_json. reflexivity.
Qed.

#[global] Instance reference_serializer_laws :
  SerializerLaws ReferenceSerializer.serializer.
Proof.
  split; intros key expires_in issued_at now payload Hnow; simpl;
    unfold ReferenceSerializer.unsign; rewrite parse_sign;
    rewrite bool_decide_eq_true_2 by reflexivity; simpl.
  - destruct (Z.ltb_spec (issued_at + expires_in) now); [lia | reflexivity].
  - destruct (Z.ltb_spec (issued_at + expires_in) now); [reflexivity | lia].
Qed.

(** ** IdentityLookup: exact comparison *)

Lemma selects_identity (i : string) (v : User) :
  selects (Or (Eq Col_email (PStr i)) (Eq Col_username (PStr i))) v = true
  <-> email v = i \/ username v = Some i.
Proof.
  rewrite selects_true. simpl.
  destruct (decide (email v = i)) as [He|He].
  - rewrite (bool_decide_eq_true_2 _ He).
    split; [auto|]. intros _. destruct (username v); reflexivity.
  - rewrite (bool_decide_eq_false_2 _ He).
    destruct (username v) as [n|]; simpl.
    + destruct (decide (n = i)) as [Hn|Hn].
      * rewrite (bool_decide_eq_true_2 _ Hn). subst. split; auto.
      * rewrite (bool_decide_eq_false_2 _ Hn).
        split; [discriminate|]. intros [?|[= ?]]; contradiction.
    + split; [discriminate|]. intros [?|?]; [contradiction | discriminate].
Qed.

Lemma find_by_identity_run (i : string) (s : session) :
  find_by_identity (PStr i) s
  = (Returns (head (List.filter
                      (selects (Or (Eq Col_email (PStr i))
                                   (Eq Col_username (PStr i))))
                      (table s))),
     emit (SelectFirst (Or (Eq Col_email (PStr i)) (Eq Col_username (PStr i))))
          s).
Proof. reflexivity. Qed.

(** The lookup returns the stored row that alone carries the string as its
    email or username. *)
Lemma find_by_identity_only_match (i : string) (u : User) (s : session) :
  In u (table s) ->
  email u = i \/ username u = Some i ->
  (forall v, In v (table s) -> email v = i \/ username v = Some i -> v = u) ->
  result (find_by_identity (PStr i)) s = Returns (Some u).
Proof.
  intros Hin Hu Honly. unfold result. rewrite find_by_identity_run. simpl.
  f_equal. apply head_filter_unique; [assumption | | ].
  - apply selects_identity; assumption.
  - intros v Hv Hsel. apply Honly; [assumption|].
    apply selects_identity; assumption.
Qed.

(** Whatever the lookup returns is a stored row. *)
Lemma find_by_identity_stored (identity : pyval) (s : session) :
  exists s',
    (find_by_identity identity s = (Raises StatementError, s')
     \/ find_by_identity identity s = (Returns None, s')
     \/ exists u, find_by_identity identity s = (Returns (Some u), s')
                  /\ In u (table s)).
Proof.
  unfold find_by_identity, query_first, execute.
  eexists.
  destruct (bindable _); [|left; reflexivity].
  right.
  destruct (head _) as [u|] eqn:Hhead; [right | left; reflexivity].
  exists u. split; [reflexivity|].
  apply head_filter_In in Hhead. tauto.
Qed.

(** ** TokenService *)

(** Where the method does fail closed.  For every token
    [deserialize_token] returns, and what it returns is [None] or a row of
    the table.  Whenever the serializer refuses the token, whatever the
    exception (bad signature, expiry, malformed data), or the decoded
    payload is not a mapping, the result is the same [None] and the session
    is left as it was. *)
Theorem deserialize_token_fails_closed `{TimedJSONWebSignatureSerializer}
    (SECRET_KEY : string) (now : Z) (token : string) (s : session) :
  (exists r, result (deserialize_token SECRET_KEY now token) s = Returns r
             /\ (r = None \/ exists u, r = Some u /\ In u (table s)))
  /\ (forall e, loads SECRET_KEY now token = Raises e ->
        deserialize_token SECRET_KEY now token s = (Returns None, s))
  /\ (forall payload e, loads SECRET_KEY now token = Returns payload ->
        json_get payload "user_email" = Raises e ->
        deserialize_token SECRET_KEY now token s = (Returns None, s)).
Proof.
  unfold result, deserialize_token, try_except, mbind, Session_bind, lift.
  destruct (loads SECRET_KEY now token) as [payload|e]; simpl.
  - destruct (json_get payload "user_email") as [identity|e'] eqn:Hget.
    + destruct (find_by_identity_stored identity s)
        as (s' & [E | [E | (u & E & Hu)]]); rewrite E; simpl.
      all: split; [eexists; split; [reflexivity | eauto] |].
      all: split; [discriminate | intros ? ? [= <-] ?; congruence].
    + split; [eexists; split; [reflexivity | eauto] |].
      split; [discriminate | reflexivity].
  - split; [eexists; split; [reflexivity | eauto] |].
    split; [reflexivity | discriminate].
Qed.

(** Whatever the serializer, a token it decodes to a mapping that holds no
    email is resolved as the lookup of [None]: nothing raises, so the
    [except] clause has nothing to catch. *)
Lemma deserialize_token_lookup_None `{TimedJSONWebSignatureSerializer}
    (SECRET_KEY : string) (now : Z) (token : string)
    (d : gmap string pyval) (s : session) :
  loads SECRET_KEY now token = Returns (JDict d) ->
  d !! "user_email" = None \/ d !! "user_email" = Some PNone ->
  deserialize_token SECRET_KEY now token s = find_by_identity PNone s.
Proof.
  intros Hloads Hget.
  unfold deserialize_token, try_except, mbind, Session_bind, lift.
  rewrite Hloads. simpl.
  replace (default PNone (d !! "user_email")) with PNone
    by (destruct Hget as [-> | ->]; reflexivity).
  reflexivity.
Qed.

(** C4.  The method does not fail closed on every malformed payload.  A
    token that verifies but whose mapping holds no email (no
    ["user_email"] key, another key only, or [None] under the key) is not
    turned into [None]: [get] yields [None] without raising, the lookup
    compares both columns with [None], and the first stored row without a
    username is returned, here carol, whom the token does not name. *)
Theorem deserialize_token_resolves_payload_without_email :
  let s := Fixtures.store [Fixtures.alice; Fixtures.carol] in
  let key := Fixtures.SECRET_KEY in
  let resolve payload :=
    result (deserialize_token key 1000 (dumps key 3600 1000 payload)) s in
  username Fixtures.carol = None
  /\ resolve (JDict ∅) = Returns (Some Fixtures.carol)
  /\ resolve (JDict {[ "foo" := PStr "bar" ]}) = Returns (Some Fixtures.carol)
  /\ resolve (JDict {[ "user_email" := PNone ]})
     = Returns (Some Fixtures.carol).
Proof.
  intros s key resolve. split; [reflexivity|].
  split; [|split]; vm_compute; reflexivity.
Qed.

Lemma deserialize_token_fails_closed_witness :
  let s := Fixtures.store [Fixtures.alice; Fixtures.dave] in
  let key := Fixtures.SECRET_KEY in
  let signed k ttl := serialize_token k Fixtures.dave ttl 1000 in
  deserialize_token key 1000 "garbage" s = (Returns None, s)
  /\ deserialize_token key 1000 (signed "another key" None) s = (Returns None, s)
  /\ deserialize_token key 1002 (signed key (Some 1%Z)) s = (Returns None, s)
  /\ deserialize_token key 1000
       (dumps key 3600 1000 JNotDict) s = (Returns None, s).
Proof.
  intros s key signed. split; [|split; [|split]].
  - apply (deserialize_token_fails_closed key 1000 "garbage")
      with (e := BadSignature).
    reflexivity.
  - refine (proj1 (proj2 (deserialize_token_fails_closed _ _ _ _)) BadSignature _).
    vm_compute. reflexivity.
  - refine (proj1 (proj2 (deserialize_token_fails_closed _ _ _ _))
              SignatureExpired _).
    vm_compute. reflexivity.
  - refine (proj2 (proj2 (deserialize_token_fails_closed _ _ _ _))
              JNotDict AttributeError _ _).
    + vm_compute. reflexivity.
    + reflexivity.
Defined.

(** The claim as first written fails: resolving the token issued for dave
    returns mallory, a different stored identity, because the lookup also
    matches usernames and mallory's username is spelled like dave's email.
    Emails and usernames are unique in this table. *)
Lemma token_round_trip_shadowed_by_username :
  let s := Fixtures.store [Fixtures.mallory; Fixtures.dave] in
  let key := Fixtures.SECRET_KEY in
  In Fixtures.dave (table s)
  /\ unique_emails (table s)
  /\ unique_usernames (table s)
  /\ result (deserialize_token key 1000
               (serialize_token key Fixtures.dave None 1000)) s
     = Returns (Some Fixtures.mallory)
  /\ Fixtures.mallory <> Fixtures.dave.
Proof.
  intros s key. split; [simpl; auto|]. split; [|split; [|split]].
  - intros u v [<-|[<-|[]]] [<-|[<-|[]]]; simpl; congruence.
  - intros u v n [<-|[<-|[]]] [<-|[<-|[]]]; simpl; congruence.
  - vm_compute. reflexivity.
  - discriminate.
Qed.

(** C5, amended.  The token issued for [u] with the default lifetime
    carries [u]'s email under ["user_email"] and a lifetime of 3600 seconds.
    When [u] is stored, emails are unique and no stored username is spelled
    like [u]'s email, resolving the token at any time from issue up to 3600
    seconds later returns [u]; resolving it later than that returns
    [None]. *)
Theorem token_round_trip
    `{SerializerLaws} (SECRET_KEY : string) (s : session) (u : User)
    (issued_at now : Z) :
  In u (table s) ->
  unique_emails (table s) ->
  (forall v, In v (table s) -> username v <> Some (email u)) ->
  let token := serialize_token SECRET_KEY u None issued_at in
  token = dumps SECRET_KEY 3600 issued_at
            (JDict {[ "user_email" := PStr (email u) ]})
  /\ ((issued_at <= now <= issued_at + 3600)%Z ->
      result (deserialize_token SECRET_KEY now token) s = Returns (Some u))
  /\ ((issued_at + 3600 < now)%Z ->
      result (deserialize_token SECRET_KEY now token) s = Returns None).
Proof.
  intros Hin Huniq Hnames token.
  split; [reflexivity|].
  unfold result, deserialize_token, try_except, mbind, Session_bind, lift.
  subst token. unfold serialize_token. simpl default.
  split; intros Hnow.
  - rewrite loads_dumps by assumption. simpl json_get.
    rewrite lookup_singleton_eq. simpl default.
    pose proof (find_by_identity_only_match (email u) u s Hin (or_introl eq_refl))
      as Hfind.
    unfold result in Hfind.
    destruct (find_by_identity (PStr (email u)) s) as [o s'].
    simpl in Hfind. rewrite Hfind; [reflexivity|].
    intros v Hv [He|Hn]; [symmetry; apply Huniq; auto | ].
    exfalso. exact (Hnames v Hv Hn).
  - rewrite loads_expired by assumption. reflexivity.
Qed.

Lemma token_round_trip_witness :
  let s := Fixtures.store [Fixtures.alice; Fixtures.dave] in
  let key := Fixtures.SECRET_KEY in
  let token := serialize_token key Fixtures.dave None 1000 in
  result (deserialize_token key 1000 token) s = Returns (Some Fixtures.dave)
  /\ result (deserialize_token key 4601 token) s = Returns None.
Proof.
  intros s key token.
  assert (Hin : In Fixtures.dave (table s)) by (simpl; auto).
  assert (Huniq : unique_emails (table s))
    by (intros u v [<-|[<-|[]]] [<-|[<-|[]]]; simpl; congruence).
  assert (Hnames : forall v, In v (table s) ->
                             username v <> Some (email Fixtures.dave))
    by (intros v [<-|[<-|[]]]; discriminate).
  split.
  - apply (token_round_trip key s Fixtures.dave 1000 1000 Hin Huniq Hnames).
    lia.
  - apply (token_round_trip key s Fixtures.dave 1000 4601 Hin Huniq Hnames).
    lia.
Defined.

(** ** CredentialStore *)

(** The claim as first written fails: carol has no password hash, and
    checking any password against her account raises; so does checking
    against a stored string that is not a hash. *)
Lemma authenticated_raises_without_hash :
  password Fixtures.carol = None
  /\ authenticated Fixtures.carol true "hunter2" = Raises TypeError
  /\ ~ (exists b, authenticated Fixtures.carol true "hunter2" = Returns b)
  /\ authenticated
       {| id := 8; role := "member"; active := true; username := None;
          email := "grace@example.com"; password := Some "";
          name := None; stripe_customer_id := None;
          cancelled_subscription_on := None; sign_in_count := 0;
          current_sign_in_on := None; current_sign_in_ip := None;
          last_sign_in_on := None; last_sign_in_ip := None |}
       true "hunter2"
     = Raises ValueError.
Proof.
  split; [reflexivity|]. split; [reflexivity|]. split; [|reflexivity].
  intros [b Hb]. discriminate Hb.
Qed.

(** C6, amended.  With [with_password] true, [authenticated] is exactly the
    bcrypt check of the stored hash against the given password: it returns
    the boolean the check returns and raises what the check raises, having
    no guard of its own for a missing or malformed hash.  With
    [with_password] false it returns [True] without any check. *)
Theorem authenticated_defers_to_bcrypt `{Bcrypt} (self : User)
    (plaintext : string) :
  authenticated self true plaintext
  = check_password_hash (password self) plaintext
  /\ (forall b, check_password_hash (password self) plaintext = Returns b ->
        authenticated self true plaintext = Returns b)
  /\ (forall e, check_password_hash (password self) plaintext = Raises e ->
        authenticated self true plaintext = Raises e)
  /\ authenticated self false plaintext = Returns true.
Proof.
  unfold authenticated. repeat split; auto.
Qed.

Lemma authenticated_defers_to_bcrypt_witness :
  authenticated Fixtures.bob true "hunter2" = Returns true
  /\ authenticated Fixtures.bob true "hunter3" = Returns false
  /\ authenticated Fixtures.carol true "hunter2" = Raises TypeError.
Proof.
  split; [|split].
  - refine (proj1 (proj2 (authenticated_defers_to_bcrypt
                            Fixtures.bob "hunter2")) true _).
    vm_compute. reflexivity.
  - refine (proj1 (proj2 (authenticated_defers_to_bcrypt
                            Fixtures.bob "hunter3")) false _).
    vm_compute. reflexivity.
  - refine (proj1 (proj2 (proj2 (authenticated_defers_to_bcrypt
                                   Fixtures.carol "hunter2"))) TypeError _).
    reflexivity.
Defined.

(** C7.  [encrypt_password] returns [None] for the empty password; for every
    other password it returns the bcrypt hash of that password under the
    salt drawn, computed with 8 rounds whatever the password and salt. *)
Theorem encrypt_password_empty_or_cost_8 `{Bcrypt} (salt : string) :
  encrypt_password salt "" = None
  /\ forall plaintext, plaintext <> "" ->
       encrypt_password salt plaintext
       = Some (generate_password_hash plaintext 8 salt).
Proof.
  split; [reflexivity|].
  intros [|c p] Hne; [contradiction | reflexivity].
Qed.

Lemma encrypt_password_empty_or_cost_8_witness :
  encrypt_password "NaCl" "hunter2"
  = Some (generate_password_hash "hunter2" 8 "NaCl").
Proof.
  apply (encrypt_password_empty_or_cost_8 "NaCl"). discriminate.
Defined.

(** ** ActivityTracker *)

(** The row of [self]'s primary key holds the updated state after the call. *)
Lemma update_activity_tracking_persisted (self : User) (now : Z)
    (ip_address : string) (s : session) (r : User) :
  In r (table s) -> id r = id self ->
  exists self' s',
    update_activity_tracking self now ip_address s = (Returns self', s')
    /\ In self' (table s').
Proof.
  intros Hin Hid. eexists; eexists. split; [reflexivity|].
  simpl. apply in_map_iff. exists r. split; [|assumption].
  rewrite bool_decide_eq_true_2 by assumption. reflexivity.
Qed.

(** C9.  One call of [update_activity_tracking] adds exactly 1 to
    [sign_in_count], moves the current sign-in time and address into the
    last ones, and records the present time and the given address as
    current.  After a call at [t1] followed by a call at [t2], the last
    sign-in time is [t1], the current one is [t2], and the count has grown
    by exactly 2. *)
Theorem update_activity_tracking_shifts (self : User) (t1 t2 : Z)
    (ip1 ip2 : string) (s : session) :
  exists u1 s1 u2 s2,
    update_activity_tracking self t1 ip1 s = (Returns u1, s1)
    /\ sign_in_count u1 = (sign_in_count self + 1)%Z
    /\ last_sign_in_on u1 = current_sign_in_on self
    /\ last_sign_in_ip u1 = current_sign_in_ip self
    /\ current_sign_in_on u1 = Some t1
    /\ current_sign_in_ip u1 = Some ip1
    /\ update_activity_tracking u1 t2 ip2 s1 = (Returns u2, s2)
    /\ (u' ← update_activity_tracking self t1 ip1;
        update_activity_tracking u' t2 ip2) s = (Returns u2, s2)
    /\ last_sign_in_on u2 = Some t1
    /\ last_sign_in_ip u2 = Some ip1
    /\ current_sign_in_on u2 = Some t2
    /\ current_sign_in_ip u2 = Some ip2
    /\ sign_in_count u2 = (sign_in_count self + 2)%Z.
Proof.
  do 4 eexists.
  split; [reflexivity|].
  do 5 (split; [reflexivity|]).
  split; [reflexivity|].
  split; [reflexivity|].
  do 4 (split; [reflexivity|]).
  simpl. lia.
Qed.

(** ** IdentityLookup *)

(** The claim as first written fails: bob was created with the username
    ["BOB"], stored as ["bob"]; looking up ["Bob"] finds nobody, looking up
    ["bob"] finds him. *)
Lemma find_by_identity_is_case_sensitive :
  let s := Fixtures.store [Fixtures.alice; Fixtures.bob] in
  username Fixtures.bob = Some "bob"
  /\ result (find_by_identity (PStr "Bob")) s = Returns None
  /\ result (find_by_identity (PStr "bob")) s = Returns (Some Fixtures.bob).
Proof.
  intros s. split; [reflexivity|]. split; vm_compute; reflexivity.
Qed.

(** C8, amended.  An identity created with the username ["BOB"] is stored
    with the username ["bob"].  The lookup compares exactly: for ["bob"] it
    returns that identity (usernames being unique and no stored email being
    ["bob"]); for ["Bob"] it does not return it, unless ["Bob"] is its
    email.  For the email of a stored identity it returns that identity
    (emails being unique and no stored username being spelled like it). *)
Theorem find_by_identity_exact `{Bcrypt} (pk : Z) (salt : string)
    (kw : kwargs) (s : session) :
  let u := __init__ pk salt kw in
  kw_username kw = Some "BOB" ->
  In u (table s) ->
  username u = Some "bob"
  /\ (unique_usernames (table s) ->
      (forall v, In v (table s) -> email v <> "bob") ->
      result (find_by_identity (PStr "bob")) s = Returns (Some u))
  /\ (email u <> "Bob" ->
      result (find_by_identity (PStr "Bob")) s <> Returns (Some u))
  /\ (forall v, In v (table s) ->
      unique_emails (table s) ->
      (forall w, In w (table s) -> username w <> Some (email v)) ->
      result (find_by_identity (PStr (email v))) s = Returns (Some v)).
Proof.
  intros u Hkw Hin.
  assert (Hname : username u = Some "bob")
    by (subst u; unfold __init__; simpl; rewrite Hkw; reflexivity).
  split; [exact Hname|]. split; [|split].
  - intros Huniq Hmail.
    apply find_by_identity_only_match; [assumption | right; assumption |].
    intros v Hv [He|Hn]; [exfalso; exact (Hmail v Hv He)|].
    exact (Huniq v u "bob" Hv Hin Hn Hname).
  - intros Hmail. unfold result. rewrite find_by_identity_run. simpl.
    intros [= Hhead]. apply head_filter_In in Hhead.
    destruct Hhead as [_ Hsel]. apply selects_identity in Hsel.
    destruct Hsel as [He|Hn]; [contradiction|].
    rewrite Hname in Hn. discriminate Hn.
  - intros v Hv Huniq Hnames.
    apply find_by_identity_only_match; [assumption | left; reflexivity |].
    intros w Hw [He|Hn]; [apply Huniq; assumption|].
    exfalso. exact (Hnames w Hw Hn).
Qed.

Lemma find_by_identity_exact_witness :
  let s := Fixtures.store [Fixtures.alice; Fixtures.bob] in
  username Fixtures.bob = Some "bob"
  /\ result (find_by_identity (PStr "bob")) s = Returns (Some Fixtures.bob)
  /\ result (find_by_identity (PStr "Bob")) s <> Returns (Some Fixtures.bob)
  /\ result (find_by_identity (PStr "alice@example.com")) s
     = Returns (Some Fixtures.alice).
Proof.
  intros s.
  pose proof (find_by_identity_exact 7 "NaCl"
                {| kw_role := None; kw_active := None;
                   kw_username := Some "BOB";
                   kw_email := Some "bob@example.com";
                   kw_password := Some "hunter2"; kw_name := Some "Bob" |}
                s eq_refl (or_intror (or_introl eq_refl)))
    as (Hname & Hlower & Hupper & Hmail).
  split; [exact Hname|]. split; [|split].
  - apply Hlower.
    + intros u v n [<-|[<-|[]]] [<-|[<-|[]]]; simpl; congruence.
    + intros v [<-|[<-|[]]]; discriminate.
  - apply Hupper. discriminate.
  - apply (Hmail Fixtures.alice).
    + simpl; auto.
    + intros u v [<-|[<-|[]]] [<-|[<-|[]]]; simpl; congruence.
    + intros w [<-|[<-|[]]]; discriminate.
Defined.

(** ** Search: [ILIKE] against substring search *)

Lemma like_any (p s : string) :
  like (String "%" p) s
  = like p s || match s with
                | EmptyString => false
                | String _ s' => like (String "%" p) s'
                end.
Proof. destruct s; reflexivity. Qed.

Lemma like_literal (c : ascii) (p s : string) :
  Ascii.eqb c "%" = false -> Ascii.eqb c "_" = false ->
  Ascii.eqb c "\" = false ->
  like (String c p) s
  = match s with
    | EmptyString => false
    | String d s' => Ascii.eqb c d && like p s'
    end.
Proof.
  intros Hpercent Hunder Hescape. simpl.
  rewrite Hpercent, Hunder, Hescape. reflexivity.
Qed.

Lemma like_percent_all (s : string) : like "%" s = true.
Proof.
  induction s as [|c s IH]; rewrite like_any; [reflexivity|].
  rewrite IH. apply orb_true_r.
Qed.

Lemma wildcard_free_cons (c : ascii) (q : string) :
  wildcard_free (String c q) = true ->
  Ascii.eqb c "%" = false /\ Ascii.eqb c "_" = false /\ wildcard_free q = true.
Proof.
  simpl. intros H.
  apply andb_true_iff in H as [H Hq]. apply andb_true_iff in H as [Hp Hu].
  apply negb_true_iff in Hp, Hu. auto.
Qed.

Lemma escape_free_cons (c : ascii) (q : string) :
  escape_free (String c q) = true ->
  Ascii.eqb c "\" = false /\ escape_free q = true.
Proof.
  simpl. intros H. apply andb_true_iff in H as [Hc Hq].
  apply negb_true_iff in Hc. auto.
Qed.

(** A pattern without wildcard and without escape, followed by [%], matches
    the strings that begin with it. *)
Lemma like_prefix (q s : string) :
  wildcard_free q = true -> escape_free q = true ->
  like (q ++ "%") s = String.prefix q s.
Proof.
  revert s. induction q as [|c q IH]; intros s Hq He.
  - change ("" ++ "%") with "%".
    rewrite like_percent_all. destruct s; reflexivity.
  - apply wildcard_free_cons in Hq as (Hp & Hu & Hq).
    apply escape_free_cons in He as (Hb & He).
    change (String c q ++ "%") with (String c (q ++ "%")).
    rewrite like_literal by assumption.
    destruct s as [|d s]; [reflexivity|]. simpl.
    destruct (ascii_dec c d) as [->|Hne].
    + rewrite Ascii.eqb_refl. apply IH; assumption.
    + apply Ascii.eqb_neq in Hne. rewrite Hne. reflexivity.
Qed.

(** Between two [%], such a pattern matches the strings that contain it. *)
Lemma like_contains (q s : string) :
  wildcard_free q = true -> escape_free q = true ->
  like ("%" ++ q ++ "%") s = contains q s.
Proof.
  intros Hq He. change ("%" ++ q ++ "%") with (String "%" (q ++ "%")).
  induction s as [|c s IH]; rewrite like_any, like_prefix by assumption.
  - reflexivity.
  - rewrite IH. reflexivity.
Qed.

Lemma lower_app (a b : string) : lower (a ++ b) = lower a ++ lower b.
Proof. induction a as [|c a IH]; simpl; [|rewrite IH]; reflexivity. Qed.

Lemma lower_ascii_wildcard (c : ascii) :
  Ascii.eqb (lower_ascii c) "%" = Ascii.eqb c "%"
  /\ Ascii.eqb (lower_ascii c) "_" = Ascii.eqb c "_".
Proof.
  destruct c as [[] [] [] [] [] [] [] []]; split; vm_compute; reflexivity.
Qed.

Lemma wildcard_free_lower (q : string) :
  wildcard_free (lower q) = wildcard_free q.
Proof.
  induction q as [|c q IH]; simpl; [reflexivity|].
  destruct (lower_ascii_wildcard c) as [-> ->]. rewrite IH. reflexivity.
Qed.

Lemma lower_ascii_escape (c : ascii) :
  Ascii.eqb (lower_ascii c) "\" = Ascii.eqb c "\".
Proof.
  destruct c as [[] [] [] [] [] [] [] []]; vm_compute; reflexivity.
Qed.

Lemma escape_free_lower (q : string) :
  escape_free (lower q) = escape_free q.
Proof.
  induction q as [|c q IH]; simpl; [reflexivity|].
  rewrite lower_ascii_escape, IH. reflexivity.
Qed.

Lemma ilike_contains (q x : string) :
  wildcard_free q = true -> escape_free q = true ->
  ilike ("%" ++ q ++ "%") x = icontains q x.
Proof.
  intros Hq He. unfold ilike, icontains. rewrite !lower_app.
  change (lower "%") with "%".
  apply like_contains.
  - rewrite wildcard_free_lower. exact Hq.
  - rewrite escape_free_lower. exact He.
Qed.

Lemma dangling_escape_cons (c : ascii) (p : string) :
  dangling_escape (String c p)
  = if Ascii.eqb c "\" then
      match p with
      | EmptyString => true
      | String _ p' => dangling_escape p'
      end
    else dangling_escape p.
Proof. reflexivity. Qed.

Lemma dangling_escape_percent (n : nat) (q : string) :
  String.length q <= n -> dangling_escape (q ++ "%") = false.
Proof.
  revert q. induction n as [|n IH]; intros q Hn.
  - destruct q; [reflexivity | simpl in Hn; lia].
  - destruct q as [|c q]; [reflexivity|].
    change (String c q ++ "%") with (String c (q ++ "%")).
    rewrite dangling_escape_cons. simpl in Hn.
    destruct (Ascii.eqb c "\"); [|apply IH; lia].
    destruct q as [|d q]; [reflexivity|].
    change (String d q ++ "%") with (String d (q ++ "%")).
    apply IH. simpl in Hn. lia.
Qed.

(** The pattern [search] builds ends in [%], so it never stops in the
    middle of an escape, whatever the query; a backslash that ends the
    query escapes that [%]. *)
Lemma search_pattern_escape_closed (query : string) :
  dangling_escape ("%" ++ query ++ "%") = false
  /\ dangling_escape (lower ("%" ++ query ++ "%")) = false.
Proof.
  rewrite !lower_app. change (lower "%") with "%".
  change ("%" ++ ?q ++ "%") with (String "%" (q ++ "%")).
  split; rewrite dangling_escape_cons; simpl Ascii.eqb; cbv iota;
    eapply dangling_escape_percent; reflexivity.
Qed.

(** The claim as first written fails: for the query ["_"] the clause
    selects carol, whose email and name do not contain an underscore. *)
Lemma search_wildcard_is_not_contains :
  exists c,
    search "_" ("email", "name") = Clause c
    /\ selects c Fixtures.carol = true
    /\ icontains "_" (email Fixtures.carol) = false
    /\ name Fixtures.carol = Some "Carol"
    /\ icontains "_" "Carol" = false.
Proof.
  eexists. split; [reflexivity|]. repeat split.
Qed.

(** The escape character breaks the reading as well, the other way round:
    the query [k\s] holds no wildcard, yet its clause passes over a name
    that contains it and selects a name that holds [ks] instead. *)
Lemma search_escape_is_not_contains :
  let grace := Fixtures.person 11 "member" true None
                 "grace@example.com" (Some "back\slash") in
  let heidi := Fixtures.person 12 "member" true None
                 "heidi@example.com" (Some "Banksy") in
  exists c,
    search "k\s" ("email", "name") = Clause c
    /\ wildcard_free "k\s" = true
    /\ icontains "k\s" "back\slash" = true
    /\ selects c grace = false
    /\ icontains "k\s" "Banksy" = false
    /\ selects c heidi = true.
Proof.
  intros grace heidi. eexists. split; [reflexivity|].
  split; [|split; [|split; [|split]]]; vm_compute; reflexivity.
Qed.

(** C10, amended.  [search] never looks at [fields]: two calls with the same
    query return the same thing whatever is passed for it.  The empty query
    returns the empty string.  A non-empty query returns the disjunction of
    [ILIKE '%query%'] on the email and on the name; when the query holds no
    character [LIKE] reads specially (the wildcards [%] and [_], the escape
    character backslash), the rows it selects are those whose email or name
    contains the query, ignoring case. *)
Theorem search_ignores_fields {T1 T2 : Type} (query : string)
    (f1 : T1) (f2 : T2) :
  search query f1 = search query f2
  /\ search "" f1 = Text ""
  /\ (query <> "" ->
      let clause := Or (ILike Col_email ("%" ++ query ++ "%"))
                       (ILike Col_name ("%" ++ query ++ "%")) in
      search query f1 = Clause clause
      /\ (wildcard_free query = true -> escape_free query = true ->
          forall u : User,
            selects clause u
            = icontains query (email u)
              || match name u with
                 | Some n => icontains query n
                 | None => false
                 end)).
Proof.
  split; [reflexivity|]. split; [reflexivity|].
  intros Hne clause. split.
  - destruct query; [contradiction | reflexivity].
  - intros Hq He u. subst clause. unfold selects. simpl.
    rewrite ilike_contains by assumption.
    destruct (name u) as [n|]; simpl.
    + rewrite ilike_contains by assumption.
      destruct (icontains query (email u)), (icontains query n); reflexivity.
    + destruct (icontains query (email u)); reflexivity.
Qed.

Lemma search_ignores_fields_witness :
  search "aro" ("email", "name") = search "aro" [Col_role]
  /\ selects (Or (ILike Col_email "%aro%") (ILike Col_name "%aro%"))
             Fixtures.carol
     = icontains "aro" "carol@example.com" || icontains "aro" "Carol".
Proof.
  split.
  - exact (proj1 (search_ignores_fields "aro" ("email", "name") [Col_role])).
  - refine (proj2 (proj2 (proj2 (search_ignores_fields
                                   "aro" ("email", "name") [Col_role]))
                           _) _ _ Fixtures.carol).
    + discriminate.
    + reflexivity.
    + reflexivity.
Defined.

(** ** Further properties of the class *)

(** *** The constructor and the lookup *)

Lemma head_filter_None {A : Type} (f : A -> bool) (l : list A) :
  head (List.filter f l) = None <-> forall x, In x l -> f x = false.
Proof.
  induction l as [|a l IH]; simpl.
  - split; [intros _ x [] | reflexivity].
  - destruct (f a) eqn:Ha; simpl.
    + split; [discriminate|]. intros Hall.
      rewrite (Hall a (or_introl eq_refl)) in Ha. discriminate Ha.
    + rewrite IH. split.
      * intros Hall x [<-|Hx]; [assumption | apply Hall, Hx].
      * intros Hall x Hx. apply Hall. right. exact Hx.
Qed.

(** X2.  An identity created with any username is found again by the
    lower-case form of that username, when it is stored, usernames are
    unique and no stored email is spelled like that form. *)
Theorem init_then_find_by_username `{Bcrypt} (pk : Z) (salt : string)
    (kw : kwargs) (raw : string) (s : session) :
  let u := __init__ pk salt kw in
  kw_username kw = Some raw ->
  In u (table s) ->
  unique_usernames (table s) ->
  (forall v, In v (table s) -> email v <> lower raw) ->
  result (find_by_identity (PStr (lower raw))) s = Returns (Some u).
Proof.
  intros u Hkw Hin Huniq Hmail.
  assert (Hname : username u = Some (lower raw))
    by (subst u; unfold __init__; simpl; rewrite Hkw; reflexivity).
  apply find_by_identity_only_match; [assumption | right; assumption |].
  intros v Hv [He|Hn]; [exfalso; exact (Hmail v Hv He)|].
  exact (Huniq v u (lower raw) Hv Hin Hn Hname).
Qed.

Lemma init_then_find_by_username_witness :
  result (find_by_identity (PStr (lower "BOB")))
         (Fixtures.store [Fixtures.dave; Fixtures.bob])
  = Returns (Some Fixtures.bob).
Proof.
  apply (init_then_find_by_username 7 "NaCl"
           {| kw_role := None; kw_active := None; kw_username := Some "BOB";
              kw_email := Some "bob@example.com";
              kw_password := Some "hunter2"; kw_name := Some "Bob" |}
           "BOB" (Fixtures.store [Fixtures.dave; Fixtures.bob])).
  - reflexivity.
  - simpl. auto.
  - intros u v n [<-|[<-|[]]] [<-|[<-|[]]]; simpl; congruence.
  - intros v [<-|[<-|[]]]; discriminate.
Defined.

(** X3.  Looking up a string always returns, leaves the table as it was,
    and returns a stored row whose email or username is that string; it
    returns [None] exactly when no stored row has that email or username. *)
Theorem find_by_identity_sound_complete (i : string) (s : session) :
  (exists r, result (find_by_identity (PStr i)) s = Returns r)
  /\ table (snd (find_by_identity (PStr i) s)) = table s
  /\ (forall u, result (find_by_identity (PStr i)) s = Returns (Some u) ->
        In u (table s) /\ (email u = i \/ username u = Some i))
  /\ (result (find_by_identity (PStr i)) s = Returns None
      <-> forall v, In v (table s) -> email v <> i /\ username v <> Some i).
Proof.
  unfold result. rewrite find_by_identity_run. simpl.
  split; [eauto|]. split; [reflexivity|]. split.
  - intros u [= Hhead]. apply head_filter_In in Hhead as [Hin Hsel].
    split; [assumption|]. apply selects_identity, Hsel.
  - split.
    + intros [= Hhead] v Hv.
      pose proof (proj1 (head_filter_None _ _) Hhead v Hv) as Hsel.
      split; intros Hmatch;
        (assert (Hs : selects (Or (Eq Col_email (PStr i))
                                  (Eq Col_username (PStr i))) v = true)
           by (apply selects_identity; auto));
        rewrite Hs in Hsel; discriminate Hsel.
    + intros Hnone. f_equal. apply head_filter_None. intros v Hv.
      destruct (selects _ v) eqn:Hsel; [|reflexivity].
      apply selects_identity in Hsel. destruct (Hnone v Hv) as [He Hn].
      destruct Hsel; contradiction.
Qed.

Lemma find_by_identity_sound_complete_witness :
  In Fixtures.dave (table (Fixtures.store [Fixtures.alice; Fixtures.dave]))
  /\ (email Fixtures.dave = "dave" \/ username Fixtures.dave = Some "dave").
Proof.
  apply (find_by_identity_sound_complete "dave"
           (Fixtures.store [Fixtures.alice; Fixtures.dave])).
  vm_compute. reflexivity.
Defined.

Lemma selects_identity_None (v : User) :
  selects (Or (Eq Col_email PNone) (Eq Col_username PNone)) v = true
  <-> username v = None.
Proof.
  rewrite selects_true. simpl.
  destruct (username v) as [n|]; simpl.
  - split; discriminate.
  - split; reflexivity.
Qed.

(** X4.  Looking up [None] compares both columns with NULL: what it returns
    is a stored row without a username, and it returns [None] exactly when
    every stored row has a username. *)
Theorem find_by_identity_None (s : session) :
  (forall u, result (find_by_identity PNone) s = Returns (Some u) ->
     In u (table s) /\ username u = None)
  /\ (result (find_by_identity PNone) s = Returns None
      <-> forall v, In v (table s) -> username v <> None).
Proof.
  unfold result, find_by_identity, query_first, execute. simpl. split.
  - intros u [= Hhead]. apply head_filter_In in Hhead as [Hin Hsel].
    split; [assumption|]. apply selects_identity_None, Hsel.
  - split.
    + intros [= Hhead] v Hv Hn.
      pose proof (proj1 (head_filter_None _ _) Hhead v Hv) as Hsel.
      apply selects_identity_None in Hn. rewrite Hn in Hsel. discriminate Hsel.
    + intros Hall. f_equal. apply head_filter_None. intros v Hv.
      destruct (selects _ v) eqn:Hsel; [|reflexivity].
      apply selects_identity_None in Hsel. exfalso. exact (Hall v Hv Hsel).
Qed.

Lemma find_by_identity_None_witness :
  In Fixtures.carol (table (Fixtures.store [Fixtures.alice; Fixtures.carol]))
  /\ username Fixtures.carol = None.
Proof.
  apply (find_by_identity_None (Fixtures.store [Fixtures.alice; Fixtures.carol])).
  vm_compute. reflexivity.
Defined.

(** *** Passwords *)

#[global] Instance reference_bcrypt_laws : BcryptLaws ReferenceBcrypt.bcrypt.
Proof.
  split. intros password_ rounds salt. simpl.
  unfold ReferenceBcrypt.checkpw, ReferenceBcrypt.hashpw,
    ReferenceBcrypt.parse_hash.
  match goal with
  | |- context [append EmptyString ?x] => change (append EmptyString x) with x
  end.
  rewrite get_put_Z. simpl.
  rewrite get_put_string. simpl.
  rewrite bool_decide_eq_true_2 by reflexivity. reflexivity.
Qed.

(** X5.  An identity created with a non-empty password authenticates with
    that password, for every bcrypt under which a hashed password
    verifies. *)
Theorem sign_up_then_authenticate `{BcryptLaws} (pk : Z) (salt : string)
    (kw : kwargs) (p : string) :
  kw_password kw = Some p -> p <> "" ->
  authenticated (__init__ pk salt kw) true p = Returns true.
Proof.
  intros Hkw Hne. unfold authenticated, __init__. simpl.
  rewrite Hkw. simpl.
  destruct p as [|c p]; [contradiction|].
  unfold encrypt_password. simpl. apply check_generated.
Qed.

Lemma sign_up_then_authenticate_witness :
  authenticated Fixtures.bob true "hunter2" = Returns true.
Proof.
  apply (sign_up_then_authenticate 7 "NaCl"
           {| kw_role := None; kw_active := None; kw_username := Some "BOB";
              kw_email := Some "bob@example.com";
              kw_password := Some "hunter2"; kw_name := Some "Bob" |}
           "hunter2").
  - reflexivity.
  - discriminate.
Defined.

(** *** The safeguard as a whole *)

(** X6.  [is_last_admin] always returns and never changes the table.  It
    returns [True] exactly when the change engages the safeguard and the
    table holds exactly one admin, whoever the identity is: with a single
    admin stored, deactivating any active account is refused as well. *)
Theorem is_last_admin_true_iff (user : User) (new_role : string)
    (new_active : pyval) (s : session) :
  (exists b, result (is_last_admin user new_role new_active) s = Returns b)
  /\ table (snd (is_last_admin user new_role new_active s)) = table s
  /\ (result (is_last_admin user new_role new_active) s = Returns true
      <-> engaged user new_role new_active /\ count_admins (table s) = 1)
  /\ (active user = true -> count_admins (table s) = 1 ->
      result (is_last_admin user new_role PNone) s = Returns true).
Proof.
  unfold result. rewrite !is_last_admin_run.
  split; [destruct (bool_decide _); simpl; eauto|].
  split; [destruct (bool_decide _); reflexivity|].
  split.
  - destruct (decide (engaged user new_role new_active)) as [E|E].
    + rewrite (bool_decide_eq_true_2 _ E). simpl. split.
      * intros [= Hc]. apply Nat.eqb_eq in Hc. auto.
      * intros [_ ->]. reflexivity.
    + rewrite (bool_decide_eq_false_2 _ E). simpl.
      split; [discriminate | tauto].
  - intros Ha Hc.
    rewrite bool_decide_eq_true_2 by (right; auto).
    simpl. rewrite Hc. reflexivity.
Qed.

Lemma is_last_admin_true_iff_witness :
  result (is_last_admin Fixtures.carol "member" PNone)
         (Fixtures.store [Fixtures.carol; Fixtures.alice]) = Returns true.
Proof.
  apply (is_last_admin_true_iff Fixtures.carol "member" (PBool true)
           (Fixtures.store [Fixtures.carol; Fixtures.alice]));
    reflexivity.
Defined.

(** *** Search beyond wildcard-free queries *)

(** Whatever wildcards a pattern without escape holds, followed by [%] it
    matches the strings that begin with it character for character. *)
Lemma like_prefix_any (q s : string) :
  escape_free q = true ->
  String.prefix q s = true -> like (q ++ "%") s = true.
Proof.
  revert s. induction q as [|c q IH]; intros s He Hp.
  - apply like_percent_all.
  - apply escape_free_cons in He as (Hb & He).
    specialize (fun s => IH s He).
    destruct s as [|d s]; [discriminate Hp|]. simpl in Hp.
    destruct (ascii_dec c d) as [<-|]; [|discriminate Hp].
    change (String c q ++ "%") with (String c (q ++ "%")).
    destruct (Ascii.eqb c "%") eqn:Epercent.
    + apply Ascii.eqb_eq in Epercent. subst c.
      rewrite like_any.
      replace (like (String "%" (q ++ "%")) s) with true;
        [apply orb_true_r|].
      rewrite like_any, (IH s Hp). reflexivity.
    + destruct (Ascii.eqb c "_") eqn:Eunder.
      * apply Ascii.eqb_eq in Eunder. subst c. simpl. apply IH, Hp.
      * rewrite like_literal by assumption.
        rewrite Ascii.eqb_refl. simpl. apply IH, Hp.
Qed.

Lemma contains_unfold (q s : string) :
  contains q s
  = String.prefix q s
    || match s with
       | EmptyString => false
       | String _ s' => contains q s'
       end.
Proof. destruct s; reflexivity. Qed.

Lemma like_contains_any (q s : string) :
  escape_free q = true ->
  contains q s = true -> like ("%" ++ q ++ "%") s = true.
Proof.
  intros He. change ("%" ++ q ++ "%") with (String "%" (q ++ "%")).
  induction s as [|c s IH]; rewrite contains_unfold; intros Hc;
    rewrite like_any.
  - rewrite orb_false_r in Hc.
    rewrite (like_prefix_any _ _ He Hc). reflexivity.
  - apply orb_true_iff in Hc as [Hp|Hc].
    + rewrite (like_prefix_any _ _ He Hp). reflexivity.
    + rewrite (IH Hc). apply orb_true_r.
Qed.

Lemma ilike_icontains_any (q x : string) :
  escape_free q = true ->
  icontains q x = true -> ilike ("%" ++ q ++ "%") x = true.
Proof.
  unfold ilike, icontains. intros He Hc. rewrite !lower_app.
  change (lower "%") with "%". apply like_contains_any; [|exact Hc].
  rewrite escape_free_lower. exact He.
Qed.

Lemma selects_search_clause (pattern : string) (u : User) :
  selects (Or (ILike Col_email pattern) (ILike Col_name pattern)) u
  = ilike pattern (email u)
    || match name u with
       | Some n => ilike pattern n
       | None => false
       end.
Proof.
  unfold selects. simpl.
  destruct (name u) as [n|]; simpl.
  - destruct (ilike pattern (email u)), (ilike pattern n); reflexivity.
  - destruct (ilike pattern (email u)); reflexivity.
Qed.

(** X7.  A non-empty query without a backslash, wildcards or not, never
    misses a literal match: every row whose email or name contains the
    query, ignoring case, is selected by the clause [search] returns. *)
Theorem search_finds_literal_matches {T : Type} (query : string) (fields : T)
    (u : User) :
  query <> "" ->
  escape_free query = true ->
  icontains query (email u) = true
  \/ (exists n, name u = Some n /\ icontains query n = true) ->
  exists c, search query fields = Clause c /\ selects c u = true.
Proof.
  intros Hne Hfree Hmatch.
  destruct query as [|c q]; [contradiction|].
  eexists. split; [reflexivity|].
  rewrite selects_search_clause.
  destruct Hmatch as [He | (n & Hn & Hc)].
  - rewrite (ilike_icontains_any _ _ Hfree He). reflexivity.
  - rewrite Hn, (ilike_icontains_any _ _ Hfree Hc). apply orb_true_r.
Qed.

Lemma search_finds_literal_matches_witness :
  exists c, search "50%_OFF" ("email", "name") = Clause c
            /\ selects c (Fixtures.person 10 "member" true None
                            "ivan@example.com" (Some "Ivan 50%_off deals"))
               = true.
Proof.
  apply search_finds_literal_matches; [discriminate | reflexivity |].
  right. eexists. split; [reflexivity|]. vm_compute. reflexivity.
Defined.

(** X8.  Queries that differ only in the case of their letters select the
    same rows. *)
Theorem search_ignores_query_case {T : Type} (q1 q2 : string) (fields : T) :
  q1 <> "" -> lower q1 = lower q2 ->
  exists c1 c2,
    search q1 fields = Clause c1
    /\ search q2 fields = Clause c2
    /\ forall u, selects c1 u = selects c2 u.
Proof.
  intros Hne Hlower.
  destruct q1 as [|a1 q1]; [contradiction|].
  destruct q2 as [|a2 q2]; [discriminate Hlower|].
  do 2 eexists. split; [reflexivity|]. split; [reflexivity|].
  intros u. rewrite !selects_search_clause. unfold ilike.
  rewrite !lower_app. rewrite Hlower. reflexivity.
Qed.

Lemma search_ignores_query_case_witness :
  exists c1 c2,
    search "Carol" ("email", "name") = Clause c1
    /\ search "cAROL" ("email", "name") = Clause c2
    /\ forall u, selects c1 u = selects c2 u.
Proof.
  apply search_ignores_query_case; [discriminate | reflexivity].
Defined.

Lemma all_percent_app (a b : string) :
  all_percent (a ++ b) = all_percent a && all_percent b.
Proof.
  induction a as [|c a IH]; simpl; [reflexivity|].
  rewrite IH. apply andb_assoc.
Qed.

Lemma all_percent_lower (p : string) : all_percent (lower p) = all_percent p.
Proof.
  induction p as [|c p IH]; simpl; [reflexivity|].
  destruct (lower_ascii_wildcard c) as [-> _]. rewrite IH. reflexivity.
Qed.

Lemma like_all_percent (p s : string) :
  p <> "" -> all_percent p = true -> like p s = true.
Proof.
  induction p as [|c p IH]; intros Hne Hall; [contradiction|].
  simpl in Hall. apply andb_true_iff in Hall as [Hc Hall].
  apply Ascii.eqb_eq in Hc. subst c.
  destruct p as [|d p]; [apply like_percent_all|].
  rewrite like_any, IH by (assumption || discriminate). reflexivity.
Qed.

(** X9.  A non-empty query made of percent signs only selects every row,
    whatever its email and name. *)
Theorem search_percent_selects_all {T : Type} (query : string) (fields : T) :
  query <> "" -> all_percent query = true ->
  exists c, search query fields = Clause c /\ forall u, selects c u = true.
Proof.
  intros Hne Hall.
  destruct query as [|a q]; [contradiction|].
  eexists. split; [reflexivity|].
  intros u. rewrite selects_search_clause.
  replace (ilike ("%" ++ String a q ++ "%") (email u)) with true;
    [reflexivity|].
  symmetry. unfold ilike. apply like_all_percent.
  - discriminate.
  - rewrite all_percent_lower, !all_percent_app, Hall. reflexivity.
Qed.

Lemma search_percent_selects_all_witness :
  exists c, search "%%" ("email", "name") = Clause c
            /\ forall u, selects c u = true.
Proof.
  apply search_percent_selects_all; [discriminate | reflexivity].
Defined.

(** *** Tokens of any lifetime *)

(** X10.  With any lifetime, default or given, resolving a token issued for
    [u] within its lifetime is the lookup of [u]'s email, result and
    statements alike; resolving it once the lifetime has passed returns
    [None] and issues no statement.  A lifetime below zero is past at
    once. *)
Theorem token_resolves_as_lookup `{SerializerLaws} (SECRET_KEY : string)
    (s : session) (u : User) (expiration : option Z) (issued_at now : Z) :
  let ttl := default 3600%Z expiration in
  let token := serialize_token SECRET_KEY u expiration issued_at in
  ((issued_at <= now <= issued_at + ttl)%Z ->
   deserialize_token SECRET_KEY now token s
   = find_by_identity (PStr (email u)) s)
  /\ ((issued_at + ttl < now)%Z ->
      deserialize_token SECRET_KEY now token s = (Returns None, s))
  /\ ((ttl < 0)%Z -> (issued_at <= now)%Z ->
      deserialize_token SECRET_KEY now token s = (Returns None, s)).
Proof.
  intros ttl token.
  assert (Hexpired : (issued_at + ttl < now)%Z ->
            deserialize_token SECRET_KEY now token s = (Returns None, s)).
  { intros Hnow. subst token ttl.
    unfold deserialize_token, try_except, mbind, Session_bind, lift,
      serialize_token.
    rewrite loads_expired by assumption. reflexivity. }
  split; [|split; [exact Hexpired | intros; apply Hexpired; lia]].
  intros Hnow. subst token ttl.
  unfold deserialize_token, try_except, mbind, Session_bind, lift,
    serialize_token.
  rewrite loads_dumps by assumption. simpl json_get.
  rewrite lookup_singleton_eq. simpl default.
  rewrite find_by_identity_run. reflexivity.
Qed.

Lemma token_resolves_as_lookup_witness :
  let s := Fixtures.store [Fixtures.alice; Fixtures.dave] in
  let key := Fixtures.SECRET_KEY in
  let token := serialize_token key Fixtures.dave (Some 1%Z) 1000 in
  deserialize_token key 1001 token s
  = find_by_identity (PStr "dave@example.com") s
  /\ deserialize_token key 1002 token s = (Returns None, s)
  /\ deserialize_token key 1000
       (serialize_token key Fixtures.dave (Some (-5)%Z) 1000) s
     = (Returns None, s).
Proof.
  intros s key token. split; [|split].
  - refine (proj1 (token_resolves_as_lookup key s Fixtures.dave
                     (Some 1%Z) 1000 1001) _).
    simpl. lia.
  - refine (proj1 (proj2 (token_resolves_as_lookup key s Fixtures.dave
                            (Some 1%Z) 1000 1002)) _).
    simpl. lia.
  - refine (proj2 (proj2 (token_resolves_as_lookup key s Fixtures.dave
                            (Some (-5)%Z) 1000 1000)) _ _);
      simpl; lia.
Defined.

(** X11.  Resolving a token never changes the table and never commits: it
    issues no statement at all, or the single lookup. *)
Theorem deserialize_token_read_only `{TimedJSONWebSignatureSerializer}
    (SECRET_KEY : string) (now : Z) (token : string) (s : session) :
  let s' := snd (deserialize_token SECRET_KEY now token s) in
  table s' = table s
  /\ (issued s' = issued s
      \/ exists c, issued s' = (issued s ++ [SelectFirst c])%list).
Proof.
  unfold deserialize_token, try_except, mbind, Session_bind, lift.
  destruct (loads SECRET_KEY now token) as [payload|e]; simpl; [|auto].
  destruct (json_get payload "user_email") as [identity|e]; simpl; [|auto].
  unfold find_by_identity, query_first, execute.
  destruct identity; simpl; eauto.
Qed.

(** *** Sign-ins *)

(** One call, spelled out for the proofs below. *)
Lemma update_activity_tracking_step (self : User) (now : Z)
    (ip_address : string) (s : session) :
  exists self' s',
    update_activity_tracking self now ip_address s = (Returns self', s')
    /\ (forall rest,
          sign_ins self ((now, ip_address) :: rest) s = sign_ins self' rest s')
    /\ sign_in_count self' = (sign_in_count self + 1)%Z
    /\ last_sign_in_on self' = current_sign_in_on self
    /\ last_sign_in_ip self' = current_sign_in_ip self
    /\ current_sign_in_on self' = Some now
    /\ current_sign_in_ip self' = Some ip_address
    /\ id self' = id self
    /\ email self' = email self
    /\ username self' = username self
    /\ password self' = password self
    /\ role self' = role self
    /\ active self' = active self
    /\ table s' = map (fun r => if bool_decide (id r = id self) then self' else r)
                      (table s).
Proof. do 2 eexists. repeat split. Qed.

Lemma sign_ins_run (events : list (Z * string)) :
  forall (self : User) (s : session),
  exists u s',
    sign_ins self events s = (Returns u, s')
    /\ sign_in_count u = (sign_in_count self + Z.of_nat (length events))%Z
    /\ (id u = id self /\ email u = email self /\ username u = username self
        /\ password u = password self /\ role u = role self
        /\ active u = active self)
    /\ (events = [] -> u = self)
    /\ (forall t ip, events = [(t, ip)] ->
          last_sign_in_on u = current_sign_in_on self
          /\ last_sign_in_ip u = current_sign_in_ip self)
    /\ (forall pre t ip, events = (pre ++ [(t, ip)])%list ->
          current_sign_in_on u = Some t /\ current_sign_in_ip u = Some ip)
    /\ (forall pre t1 ip1 t2 ip2,
          events = (pre ++ [(t1, ip1); (t2, ip2)])%list ->
          last_sign_in_on u = Some t1 /\ last_sign_in_ip u = Some ip1).
Proof.
  induction events as [|[t0 ip0] rest IH]; intros self s.
  - exists self, s. split; [reflexivity|]. split; [simpl; lia|].
    split; [tauto|]. split; [reflexivity|].
    split; [discriminate|].
    split; intros pre; intros; destruct pre; discriminate.
  - destruct (update_activity_tracking_step self t0 ip0 s)
      as (self1 & s1 & _ & Hcons & Hcount & Hlon & Hlip & Hcon & Hcip
          & Hid & Hmail & Huname & Hpw & Hrole & Hact & _).
    destruct (IH self1 s1)
      as (u & s' & Hrun & Hn & Hkeep & Hnil & Hone & Hlast & Htwo).
    exists u, s'. rewrite Hcons. split; [exact Hrun|].
    split; [rewrite Hn, Hcount, length_cons, Nat2Z.inj_succ; lia|].
    split; [destruct Hkeep as (? & ? & ? & ? & ? & ?);
            repeat split; congruence|].
    split; [discriminate|].
    split; [|split].
    + intros t ip [= -> -> ->]. rewrite (Hnil eq_refl). auto.
    + intros [|p pre] t ip Heq.
      * injection Heq as Ht Hip Hrest. subst t ip.
        rewrite (Hnil Hrest). auto.
      * injection Heq as _ Hrest. exact (Hlast pre t ip Hrest).
    + intros [|p pre] t1 ip1 t2 ip2 Heq.
      * injection Heq as Ht Hip Hrest. subst t1 ip1.
        destruct (Hone t2 ip2 Hrest) as [-> ->]. auto.
      * injection Heq as _ Hrest. exact (Htwo pre t1 ip1 t2 ip2 Hrest).
Qed.

(** X12.  A run of sign-ins of one account whose values fit their columns
    (the count, before and after the run, within the 32-bit [Integer]; every
    address within [String(45)]) adds its length to [sign_in_count];
    afterwards the current sign-in is the last of the run and the previous
    sign-in the one before it.  Outside these bounds the server refuses the
    commit and nothing is said. *)
Theorem sign_ins_count_and_order (self : User) (events : list (Z * string))
    (s : session) :
  Integer_range (sign_in_count self) ->
  Integer_range (sign_in_count self + Z.of_nat (length events)) ->
  Forall (fun event => String45 (snd event)) events ->
  exists u s',
    sign_ins self events s = (Returns u, s')
    /\ sign_in_count u = (sign_in_count self + Z.of_nat (length events))%Z
    /\ (forall pre t ip, events = (pre ++ [(t, ip)])%list ->
          current_sign_in_on u = Some t /\ current_sign_in_ip u = Some ip)
    /\ (forall pre t1 ip1 t2 ip2,
          events = (pre ++ [(t1, ip1); (t2, ip2)])%list ->
          last_sign_in_on u = Some t1 /\ last_sign_in_ip u = Some ip1).
Proof.
  intros _ _ _.
  destruct (sign_ins_run events self s)
    as (u & s' & Hrun & Hn & _ & _ & _ & Hlast & Htwo).
  exists u, s'. auto.
Qed.

Lemma sign_ins_count_and_order_witness :
  exists u s',
    sign_ins Fixtures.dave
      [(100%Z, "10.0.0.1"); (200%Z, "10.0.0.2"); (300%Z, "10.0.0.3")]
      (Fixtures.store [Fixtures.dave]) = (Returns u, s')
    /\ sign_in_count u = 3%Z
    /\ (current_sign_in_on u = Some 300%Z
        /\ current_sign_in_ip u = Some "10.0.0.3")
    /\ (last_sign_in_on u = Some 200%Z
        /\ last_sign_in_ip u = Some "10.0.0.2").
Proof.
  destruct (sign_ins_count_and_order Fixtures.dave
              [(100%Z, "10.0.0.1"); (200%Z, "10.0.0.2"); (300%Z, "10.0.0.3")]
              (Fixtures.store [Fixtures.dave]))
    as (u & s' & Hrun & Hn & Hlast & Htwo).
  { unfold Integer_range. simpl. lia. }
  { unfold Integer_range. simpl. lia. }
  { repeat constructor; unfold String45; simpl; lia. }
  exists u, s'. split; [exact Hrun|]. split; [exact Hn|]. split.
  - exact (Hlast [(100%Z, "10.0.0.1"); (200%Z, "10.0.0.2")]
             300%Z "10.0.0.3" eq_refl).
  - exact (Htwo [(100%Z, "10.0.0.1")] 200%Z "10.0.0.2" 300%Z "10.0.0.3"
             eq_refl).
Defined.

(** X13.  When [self] is stored under a primary key no other row has, and
    the new values fit their columns (the incremented count within the
    32-bit [Integer], the address within [String(45)]), one sign-in keeps
    the number of rows, leaves every other row in the table, and (emails
    being unique, no username being spelled like [self]'s email) the lookup
    of [self]'s email then returns the updated object.  Outside these
    bounds the server refuses the commit and nothing is said. *)
Theorem update_activity_tracking_persists (self : User) (now : Z)
    (ip_address : string) (s : session) :
  Integer_range (sign_in_count self + 1) ->
  String45 ip_address ->
  In self (table s) ->
  (forall r, In r (table s) -> id r = id self -> r = self) ->
  unique_emails (table s) ->
  (forall v, In v (table s) -> username v <> Some (email self)) ->
  exists self' s',
    update_activity_tracking self now ip_address s = (Returns self', s')
    /\ length (table s') = length (table s)
    /\ (forall r, In r (table s) -> r <> self -> In r (table s'))
    /\ result (find_by_identity (PStr (email self))) s'
       = Returns (Some self').
Proof.
  intros _ _ Hin Hpk Hmails Hnames.
  destruct (update_activity_tracking_step self now ip_address s)
    as (self' & s' & Hrun & _ & _ & _ & _ & _ & _
        & _ & Hmail & Huname & _ & _ & _ & Htable).
  exists self', s'. split; [exact Hrun|].
  split; [rewrite Htable; apply length_map|].
  split.
  - intros r Hr Hne. rewrite Htable. apply in_map_iff. exists r.
    split; [|exact Hr].
    rewrite bool_decide_eq_false_2; [reflexivity|].
    intros Hid. apply Hne, Hpk; assumption.
  - apply find_by_identity_only_match.
    + rewrite Htable. apply in_map_iff. exists self.
      split; [|exact Hin].
      rewrite bool_decide_eq_true_2 by reflexivity. reflexivity.
    + left. exact Hmail.
    + intros v Hv Hmatch. rewrite Htable in Hv.
      apply in_map_iff in Hv as (r & Hv & Hr).
      destruct (decide (id r = id self)) as [Hid|Hid].
      * rewrite (bool_decide_eq_true_2 _ Hid) in Hv. congruence.
      * rewrite (bool_decide_eq_false_2 _ Hid) in Hv. subst v.
        exfalso. destruct Hmatch as [He|Hn].
        -- apply Hid. rewrite (Hmails r self Hr Hin He). reflexivity.
        -- exact (Hnames r Hr Hn).
Qed.

Lemma update_activity_tracking_persists_witness :
  exists self' s',
    update_activity_tracking Fixtures.dave 100 "10.0.0.1"
      (Fixtures.store [Fixtures.alice; Fixtures.dave]) = (Returns self', s')
    /\ length (table s') = 2
    /\ (forall r, In r [Fixtures.alice; Fixtures.dave] ->
          r <> Fixtures.dave -> In r (table s'))
    /\ result (find_by_identity (PStr "dave@example.com")) s'
       = Returns (Some self').
Proof.
  apply (update_activity_tracking_persists Fixtures.dave 100 "10.0.0.1"
           (Fixtures.store [Fixtures.alice; Fixtures.dave])).
  - unfold Integer_range. simpl. lia.
  - unfold String45. simpl. lia.
  - simpl. auto.
  - intros r [<-|[<-|[]]]; [discriminate | reflexivity].
  - intros u v [<-|[<-|[]]] [<-|[<-|[]]]; simpl; congruence.
  - intros v [<-|[<-|[]]]; discriminate.
Defined.

(** *** Credentials across sign-ins *)

(** X15.  Sign-ins touch neither the credentials nor the identity: after
    any run of sign-ins the password check gives what it gave before, the
    auth token issued at a given time is the one issued before the run, and
    the action token carries the same email. *)
Theorem sign_ins_keep_credentials
    `{Bcrypt} `{URLSafeTimedSerializer} `{Hashlib}
    `{TimedJSONWebSignatureSerializer}
    (SECRET_KEY : string) (self : User) (events : list (Z * string))
    (s : session) :
  exists u s',
    sign_ins self events s = (Returns u, s')
    /\ (forall with_password p,
          authenticated u with_password p = authenticated self with_password p)
    /\ (forall now, get_auth_token SECRET_KEY u now
                    = get_auth_token SECRET_KEY self now)
    /\ (forall expiration now,
          serialize_token SECRET_KEY u expiration now
          = serialize_token SECRET_KEY self expiration now).
Proof.
  destruct (sign_ins_run events self s)
    as (u & s' & Hrun & _ & (Hid & Hmail & _ & Hpw & _ & _) & _).
  exists u, s'. split; [exact Hrun|].
  unfold authenticated, get_auth_token, serialize_token.
  rewrite Hid, Hmail, Hpw. auto.
Qed.
